(** * Kaplan-Meier plotting helpers of [SurvivalAnalysisUtils.py]

    A shallow embedding of the two routines of [ReusableUtils],
    [PlotKaplanMeierEstimatesForCategoricalVariables] and
    [PlotKaplanMeierEstimatesForContinuousVariables], with their nested
    [km_fits] helpers, and the properties of the stratification, labelling,
    panel layout and failure behaviour.

    The routines are thin orchestration code over numpy, pandas, lifelines
    and matplotlib.  The module-level names [np], [pd] and [plt] are taken
    to be bound to these libraries.  The library calls the routines make
    are modelled by their documented behaviour, each in a definition named
    after the call:
    - float64 values are exact rationals ([Qc]); NaN appears only as the
      missing value that [pd.cut] produces for a value outside every bin;
    - a [DataFrame] is a finite map from column names to columns; all
      columns of a well-formed frame have the same length;
    - the dataset is the caller's object and is mutated in place, so it is
      part of the state that every step threads, together with the figure
      under construction and the list of estimator fits made so far;
    - a Python exception ends the computation with [Raise], keeping the
      state reached at that point. *)

From Stdlib Require Import ZArith QArith Qcanon Ascii String DecimalString.
From stdpp Require Import gmap strings list sorting.

Local Open Scope string_scope.
Local Open Scope list_scope.

(** ** Python values *)

(** [pandas.Interval], closed on the right (the default of [pd.cut]). *)
Record Interval := mkInterval { left : Qc; right : Qc }.

(** The scalars found in the columns of a frame. [VNaN] is the missing
    value of a categorical column. *)
Inductive cell :=
| VInt (n : Z)
| VFloat (q : Qc)
| VStr (s : string)
| VInterval (i : Interval)
| VNaN.

(** A column (pandas [Series]) with its dtype: int64, float64, object
    (strings), or the interval-categorical dtype that [pd.cut] returns:
    categories and, per row, the index of its category or [None]. *)
Inductive Series :=
| IntS (xs : list Z)
| FloatS (xs : list Qc)
| StrS (xs : list string)
| CatS (categories : list Interval) (codes : list (option nat)).

#[global] Instance Interval_eq_dec : EqDecision Interval.
Proof. solve_decision. Defined.
#[global] Instance cell_eq_dec : EqDecision cell.
Proof. solve_decision. Defined.
#[global] Instance Series_eq_dec : EqDecision Series.
Proof. solve_decision. Defined.

Definition cat_value (categories : list Interval) (code : option nat) : cell :=
  match code with
  | Some k => match categories !! k with Some i => VInterval i | None => VNaN end
  | None => VNaN
  end.

(** The values of a column, as iteration or [np.asarray] yields them. *)
Definition values (s : Series) : list cell :=
  match s with
  | IntS xs => VInt <$> xs
  | FloatS xs => VFloat <$> xs
  | StrS xs => VStr <$> xs
  | CatS cats codes => cat_value cats <$> codes
  end.

Definition series_len (s : Series) : nat := length (values s).

(** ** [str] *)

(** [str] of a Python int. *)
Definition str_int (n : Z) : string := NilZero.string_of_int (Z.to_int n).

(** Digits after the decimal point: long division of [r / d], at least one
    digit, stopping when the remainder is zero. *)
Fixpoint frac_digits (fuel : nat) (r d : Z) : string :=
  let digit := (10 * r / d)%Z in
  let r' := ((10 * r) mod d)%Z in
  match fuel with
  | O => str_int digit
  | S fuel' =>
      if (r' =? 0)%Z then str_int digit
      else str_int digit ++ frac_digits fuel' r' d
  end.

(** [str] of a float: the decimal expansion with at least one fractional
    digit.  Exact for the values whose expansion ends within 17 fractional
    digits and that Python does not print in exponent notation. *)
Definition str_float (q : Qc) : string :=
  let n := Qnum q in
  let d := Z.pos (Qden q) in
  let a := Z.abs n in
  (if (n <? 0)%Z then "-" else "")
    ++ str_int (a / d) ++ "." ++ frac_digits 16 (a mod d) d.

(** [Interval.__str__] for an interval closed on the right. *)
Definition str_interval (i : Interval) : string :=
  "(" ++ str_float (left i) ++ ", " ++ str_float (right i) ++ "]".

Definition str (v : cell) : string :=
  match v with
  | VInt n => str_int n
  | VFloat q => str_float q
  | VStr s => s
  | VInterval i => str_interval i
  | VNaN => "nan"
  end.

(** [s.replace(old, new)] for a one-character [old]. *)
Fixpoint str_replace (old : Ascii.ascii) (new : string) (s : string) : string :=
  match s with
  | EmptyString => EmptyString
  | String c s' =>
      if Ascii.eqb c old then new ++ str_replace old new s'
      else String c (str_replace old new s')
  end.

Definition Qc_of (n : Z) (d : positive) : Qc := Q2Qc (n # d).

(** ** Exceptions and the two layers of computation *)

Inductive exn :=
| KeyError (missing : list string)
| IndexError
| TypeError
| ValueError.

Inductive outcome (A : Type) :=
| Return (a : A)
| Raise (e : exn).
Arguments Return {A} a.
Arguments Raise {A} e.

(** ** numpy and pandas on columns *)

(** The comparison [<=] that sorting applies to two values of one column.
    Values of different kinds never meet in a column; they are ordered by
    kind to make the relation total. *)
Definition kind_rank (v : cell) : nat :=
  match v with
  | VInt _ => 0 | VFloat _ => 1 | VStr _ => 2 | VInterval _ => 3 | VNaN => 4
  end.

Definition interval_leb (i j : Interval) : bool :=
  bool_decide (left i < left j)%Qc
  || (bool_decide (left i = left j) && bool_decide (right i ≤ right j)%Qc).

Definition cell_leb (a b : cell) : bool :=
  match a, b with
  | VInt x, VInt y => bool_decide (x ≤ y)%Z
  | VFloat x, VFloat y => bool_decide (x ≤ y)%Qc
  | VStr x, VStr y => String.leb x y
  | VInterval i, VInterval j => interval_leb i j
  | _, _ => bool_decide (kind_rank a ≤ kind_rank b)%nat
  end.

Definition cell_le (a b : cell) : Prop := cell_leb a b = true.

#[global] Instance cell_le_dec : RelDecision cell_le.
Proof. intros a b. unfold cell_le. apply _. Defined.

Definition is_nan (v : cell) : bool :=
  match v with VNaN => true | _ => false end.

(** [np.unique(column)]: the sorted distinct values.  The categorical
    column of [pd.cut] is converted to an array of Python objects, its
    missing values being NaN: sorting that array raises [TypeError] when it
    holds both intervals and NaN, which do not compare; when it holds only
    NaN, every NaN is kept, since NaN differs from itself. *)
Definition np_unique (s : Series) : outcome (list cell) :=
  let vs := values s in
  if forallb is_nan vs then Return vs
  else if existsb is_nan vs then Raise TypeError
  else Return (merge_sort cell_le (remove_dups vs)).

(** [x == v] on two values of one column. *)
Definition cell_eqb (x v : cell) : bool :=
  if is_nan x || is_nan v then false else bool_decide (x = v).

(** [column == v]: the boolean mask of the rows equal to [v]. *)
Definition eq_mask (s : Series) (v : cell) : list bool :=
  (λ x, cell_eqb x v) <$> values s.

(** Boolean indexing: the entries whose mask bit is set. *)
Fixpoint mask_filter {A : Type} (mask : list bool) (l : list A) : list A :=
  match mask, l with
  | b :: mask', x :: l' =>
      if b then x :: mask_filter mask' l' else mask_filter mask' l'
  | _, _ => []
  end.

Definition select (mask : list bool) (s : Series) : Series :=
  match s with
  | IntS xs => IntS (mask_filter mask xs)
  | FloatS xs => FloatS (mask_filter mask xs)
  | StrS xs => StrS (mask_filter mask xs)
  | CatS cats codes => CatS cats (mask_filter mask codes)
  end.

(** ** DataFrame *)

Abbreviation DataFrame := (gmap string Series).

(** All columns have the same number of rows. *)
Definition wf_frame (df : DataFrame) (nrows : nat) : Prop :=
  ∀ name s, df !! name = Some s → series_len s = nrows.

(** [df[name]] *)
Definition df_getitem (df : DataFrame) (name : string) : outcome Series :=
  match df !! name with
  | Some s => Return s
  | None => Raise (KeyError [name])
  end.

(** [df[mask]]: the rows selected by a boolean mask. *)
Definition df_where (df : DataFrame) (mask : list bool) : DataFrame :=
  select mask <$> df.

(** [df.loc(axis=1)[names]]: the projection onto the listed columns;
    [KeyError] naming the labels that are not columns. *)
Definition df_loc_columns (df : DataFrame) (names : list string)
  : outcome DataFrame :=
  match List.filter (λ name, bool_decide (df !! name = None)) names with
  | [] => Return (filter (λ kv, kv.1 ∈ names) df)
  | missing => Raise (KeyError missing)
  end.

(** [df[name] = s] *)
Definition df_setitem (df : DataFrame) (name : string) (s : Series) : DataFrame :=
  <[name := s]> df.

(** [df.drop(name, axis=1, inplace=True)] *)
Definition df_drop (df : DataFrame) (name : string) : outcome DataFrame :=
  match df !! name with
  | Some _ => Return (delete name df)
  | None => Raise (KeyError [name])
  end.

(** ** [pd.cut] *)

(** A bin specification: explicit cut points or a number of equal-width
    bins. *)
Inductive split_points :=
| SplitEdges (edges : list Qc)
| SplitCount (nbins : Z).

Definition Qc_of_Z (n : Z) : Qc := Q2Qc (inject_Z n).

(** [np.rint]: the nearest integer, ties to the even one. *)
Definition np_rint (q : Qc) : Z :=
  let n := Qnum q in
  let d := Z.pos (Qden q) in
  let f := (n / d)%Z in
  let r2 := (2 * (n mod d))%Z in
  if (r2 <? d)%Z then f
  else if (d <? r2)%Z then (f + 1)%Z
  else if Z.even f then f else (f + 1)%Z.

(** [np.around(x, digits)] for [digits >= 0]. *)
Definition np_around (x : Qc) (digits : Z) : Qc :=
  (Qc_of_Z (np_rint (x * Qc_of_Z (10 ^ digits))) / Qc_of_Z (10 ^ digits))%Qc.

(** For [0 < a / d < 1], the position [k >= 1] of the first non-zero
    decimal digit, that is [- floor (log10 (a / d))]. *)
Fixpoint first_digit_pos (fuel : nat) (a d k : Z) : Z :=
  match fuel with
  | O => k
  | S fuel' =>
      if (d <=? 10 * a)%Z then k else first_digit_pos fuel' (10 * a)%Z d (k + 1)%Z
  end.

(** pandas [_round_frac]: round to [precision] decimals, or to
    [precision] significant digits when the integral part is zero. *)
Definition round_frac (precision : Z) (x : Qc) : Qc :=
  let n := Qnum x in
  let d := Z.pos (Qden x) in
  if (n =? 0)%Z then x
  else
    let whole := Z.quot n d in
    let digits :=
      if (whole =? 0)%Z
      then (first_digit_pos (Z.to_nat (Z.log2 d) + 1) (Z.abs n) d 1 - 1 + precision)%Z
      else precision in
    np_around x digits.

(** pandas [_infer_precision]: the first precision from [base] below 20 at
    which the rounded edges are distinct, else [base]. *)
Fixpoint infer_precision_from (fuel : nat) (base p : Z) (bins : list Qc) : Z :=
  match fuel with
  | O => base
  | S fuel' =>
      if bool_decide (NoDup (round_frac p <$> bins)) then p
      else infer_precision_from fuel' base (p + 1)%Z bins
  end.

Definition infer_precision (base : Z) (bins : list Qc) : Z :=
  infer_precision_from (Z.to_nat (20 - base)) base base bins.

(** [IntervalIndex.from_breaks(breaks, closed="right")] *)
Definition from_breaks (breaks : list Qc) : list Interval :=
  zip_with mkInterval breaks (tail breaks).

(** pandas [_format_labels] for float edges. *)
Definition format_labels (bins : list Qc) (precision : Z) : list Interval :=
  from_breaks (round_frac (infer_precision precision bins) <$> bins).

(** [bins.searchsorted(x, side="left")] on sorted [bins]: the number of
    edges below [x]. *)
Definition searchsorted_left (bins : list Qc) (x : Qc) : nat :=
  length (List.filter (λ e, bool_decide (e < x)%Qc) bins).

(** The category of one value: [x] with [bins[k] < x <= bins[k+1]] gets
    code [k]; a value at or below the first edge or above the last one is
    missing. *)
Definition bin_code (bins : list Qc) (x : Qc) : option nat :=
  let ids := searchsorted_left bins x in
  if bool_decide (ids = 0%nat) || bool_decide (ids = length bins) then None
  else Some (ids - 1)%nat.

(** pandas [_bins_to_cuts] with [right=True], [labels=None],
    [precision=3], [include_lowest=False], [duplicates="raise"]. *)
Definition bins_to_cuts (x : list Qc) (bins : list Qc) : outcome Series :=
  if negb (bool_decide (NoDup bins)) && negb (bool_decide (length bins = 2%nat))
  then Raise ValueError
  else
    let labels := format_labels bins 3 in
    if bool_decide (NoDup labels)
    then Return (CatS labels (bin_code bins <$> x))
    else Raise ValueError.

Definition Qc_min (a b : Qc) : Qc := if bool_decide (a ≤ b)%Qc then a else b.
Definition Qc_max (a b : Qc) : Qc := if bool_decide (a ≤ b)%Qc then b else a.
Definition Qc_abs (a : Qc) : Qc := if bool_decide (0 ≤ a)%Qc then a else (- a)%Qc.

(** [np.linspace(mn, mx, num, endpoint=True)] for [num >= 2]. *)
Definition np_linspace (mn mx : Qc) (num : nat) : list Qc :=
  (λ i : nat, mn + Qc_of_Z (Z.of_nat i) * ((mx - mn) / Qc_of_Z (Z.of_nat (num - 1))))%Qc
    <$> seq 0 num.

(** pandas [_nbins_to_bins] with [right=True]: equal-width edges over the
    observed range, the first edge moved down by 0.1% of the range so that
    the minimum falls into the first bin. *)
Definition nbins_to_bins (x : list Qc) (nbins : Z) : outcome (list Qc) :=
  if (nbins <? 1)%Z then Raise ValueError
  else
    match x with
    | [] => Raise ValueError
    | x0 :: xs =>
        let mn := foldr Qc_min x0 xs in
        let mx := foldr Qc_max x0 xs in
        let milli := Qc_of 1 1000 in
        if bool_decide (mn = mx) then
          let mn' := (mn - (if bool_decide (mn = 0%Qc) then milli else milli * Qc_abs mn))%Qc in
          let mx' := (mx + (if bool_decide (mx = 0%Qc) then milli else milli * Qc_abs mx))%Qc in
          Return (np_linspace mn' mx' (Z.to_nat nbins + 1))
        else
          match np_linspace mn mx (Z.to_nat nbins + 1) with
          | b0 :: bs => Return ((b0 - (mx - mn) * milli)%Qc :: bs)
          | [] => Return []
          end
    end.

(** The numbers of a numeric column; [None] for a column [pd.cut] cannot
    compare with numeric edges. *)
Definition numeric_values (s : Series) : option (list Qc) :=
  match s with
  | IntS xs => Some (Qc_of_Z <$> xs)
  | FloatS xs => Some xs
  | StrS [] => Some []
  | StrS _ => None
  | CatS _ _ => None
  end.

Definition nondecreasing (l : list Qc) : bool :=
  forallb (λ p : Qc * Qc, bool_decide (p.1 ≤ p.2)%Qc) (zip l (tail l)).

(** [pd.cut(x=column, bins=split_points)] *)
Definition pd_cut (x : Series) (bins : split_points) : outcome Series :=
  match numeric_values x with
  | None => Raise TypeError
  | Some xs =>
      match bins with
      | SplitEdges edges =>
          if nondecreasing edges then bins_to_cuts xs edges
          else Raise ValueError
      | SplitCount nbins =>
          match nbins_to_bins xs nbins with
          | Return edges => bins_to_cuts xs edges
          | Raise e => Raise e
          end
      end
  end.

(** ** State: the caller's dataset, the figure, the fits *)

(** A fitted estimator: what [KaplanMeierFitter().fit] was given. *)
Record KMFit := mkFit {
  fit_label : string;
  durations : Series;
  event_observed : Series
}.

(** One panel of the grid: its title, the curves drawn on it, whether it
    is shown.  The axis labels, axis limits and band opacity are the same
    constants in every plot call and are not tracked. *)
Record Axes := mkAxes {
  ax_title : option string;
  ax_curves : list KMFit;
  ax_visible : bool
}.

Record Figure := mkFigure {
  nrows : nat;
  ncols : nat;
  axes : list Axes;          (* [ax.flatten()] *)
  suptitle : option string
}.

Record World := mkWorld {
  data : DataFrame;          (* the dataset passed by the caller *)
  fig : option Figure;       (* the figure made by [plt.subplots] *)
  fitted : list KMFit;       (* the estimator fits made so far *)
  shown : bool               (* [plt.show()] was called *)
}.

Definition Py (A : Type) : Type := World → outcome A * World.

Definition ret {A} (a : A) : Py A := λ w, (Return a, w).
Definition raise {A} (e : exn) : Py A := λ w, (Raise e, w).
Definition bind {A B} (c : Py A) (k : A → Py B) : Py B :=
  λ w, match c w with
       | (Return a, w') => k a w'
       | (Raise e, w') => (Raise e, w')
       end.
Definition lift {A} (o : outcome A) : Py A := λ w, (o, w).

Declare Scope py_scope.
Delimit Scope py_scope with py.
Notation "'let*' x ':=' c 'in' k" := (bind c (λ x, k))
  (at level 10, x pattern, c at level 100, k at level 200) : py_scope.
Local Open Scope py_scope.

(** A list comprehension [[f i x for i, x in enumerate(l, idx)]]. *)
Fixpoint comprehension {A B} (f : Z → A → Py B) (idx : Z) (l : list A)
  : Py (list B) :=
  match l with
  | [] => ret []
  | x :: l' =>
      let* y := f idx x in
      let* ys := comprehension f (idx + 1)%Z l' in
      ret (y :: ys)
  end.

(** A loop [for idx, x in enumerate(l, idx): body]. *)
Fixpoint for_enumerate {A} (body : Z → A → Py unit) (idx : Z) (l : list A)
  : Py unit :=
  match l with
  | [] => ret tt
  | x :: l' =>
      let* _ := body idx x in
      for_enumerate body (idx + 1)%Z l'
  end.

(** Python indexing [l[i]], negative indices counting from the end. *)
Definition py_index {A} (l : list A) (i : Z) : outcome A :=
  let j := if (i <? 0)%Z then (Z.of_nat (length l) + i)%Z else i in
  if (j <? 0)%Z then Raise IndexError
  else match l !! Z.to_nat j with
       | Some x => Return x
       | None => Raise IndexError
       end.

(** [data[name]] on the caller's dataset. *)
Definition data_getitem (name : string) : Py Series :=
  λ w, (df_getitem (data w) name, w).

(** [data[data[key] == v][name]] *)
Definition rows_where_eq (key : string) (v : cell) (name : string) : Py Series :=
  let* column := data_getitem key in
  λ w, (df_getitem (df_where (data w) (eq_mask column v)) name, w).

(** [data.loc(axis=1)[names]] *)
Definition data_loc_columns (names : list string) : Py DataFrame :=
  λ w, (df_loc_columns (data w) names, w).

(** [data[name] = s] *)
Definition data_setitem (name : string) (s : Series) : Py unit :=
  λ w, (Return tt, mkWorld (df_setitem (data w) name s) (fig w) (fitted w) (shown w)).

(** [data.drop(name, axis=1, inplace=True)] *)
Definition data_drop (name : string) : Py unit :=
  λ w, match df_drop (data w) name with
       | Return df => (Return tt, mkWorld df (fig w) (fitted w) (shown w))
       | Raise e => (Raise e, w)
       end.

(** ** lifelines *)

Definition is_numeric (s : Series) : bool :=
  match s with IntS _ | FloatS _ => true | _ => false end.

(** [KaplanMeierFitter().fit(durations, event_observed, label)].
    lifelines rejects an empty sample, values that are not numbers, and
    samples of different lengths with [ValueError]. *)
Definition KaplanMeierFitter_fit (durations event_observed : Series)
    (label : string) : Py KMFit :=
  λ w,
    if bool_decide (series_len durations = 0%nat)
       || negb (is_numeric durations) || negb (is_numeric event_observed)
       || negb (bool_decide (series_len durations = series_len event_observed))
    then (Raise ValueError, w)
    else
      let kmf := mkFit label durations event_observed in
      (Return kmf, mkWorld (data w) (fig w) (fitted w ++ [kmf]) (shown w)).

(** ** matplotlib *)

Definition new_axes : Axes := mkAxes None [] true.

(** [fig, ax = plt.subplots(nrows, ncols, figsize)] *)
Definition plt_subplots (nrows ncols : nat) : Py unit :=
  λ w, (Return tt,
        mkWorld (data w)
          (Some (mkFigure nrows ncols (replicate (nrows * ncols) new_axes) None))
          (fitted w) (shown w)).

(** The position that [ax.flatten()[idx]] designates. *)
Definition axes_position (idx : Z) : Py nat :=
  λ w, match fig w with
       | None => (Raise IndexError, w)
       | Some f =>
           match py_index (seq 0 (length (axes f))) idx with
           | Return k => (Return k, w)
           | Raise e => (Raise e, w)
           end
       end.

Definition update_axes (k : nat) (g : Axes → Axes) : Py unit :=
  λ w, (Return tt,
        mkWorld (data w)
          (match fig w with
           | Some f => Some (mkFigure (nrows f) (ncols f) (alter g k (axes f)) (suptitle f))
           | None => None
           end)
          (fitted w) (shown w)).

(** [kmf.plot(title=title, ..., ax=ax.flatten()[idx])] *)
Definition kmf_plot (kmf : KMFit) (title : string) (idx : Z) : Py unit :=
  let* k := axes_position idx in
  update_axes k (λ a, mkAxes (Some title) (ax_curves a ++ [kmf]) (ax_visible a)).

(** [ax.flatten()[idx].set_visible(b)] *)
Definition set_visible (idx : Z) (b : bool) : Py unit :=
  let* k := axes_position idx in
  update_axes k (λ a, mkAxes (ax_title a) (ax_curves a) b).

(** [fig.suptitle(t, ...)] *)
Definition fig_suptitle (t : string) : Py unit :=
  λ w, (Return tt,
        mkWorld (data w)
          (match fig w with
           | Some f => Some (mkFigure (nrows f) (ncols f) (axes f) (Some t))
           | None => None
           end)
          (fitted w) (shown w)).

(** [plt.show()] *)
Definition plt_show : Py unit :=
  λ w, (Return tt, mkWorld (data w) (fig w) (fitted w) true).

(** ** The categorical routine *)

Module Categorical.

(** [km_fits(data, curr_Feature)]: one fit per distinct value of the
    column. *)
Definition km_fits (curr_Feature : string) : Py (list KMFit) :=
  let* column := data_getitem curr_Feature in
  let* range_hue := lift (np_unique column) in
  let* X := comprehension (λ _ x, rows_where_eq curr_Feature x "time") 0 range_hue in
  let* Y := comprehension (λ _ y, rows_where_eq curr_Feature y "DEATH_EVENT") 0 range_hue in
  let fit_label := (λ range_hue_i, curr_Feature +:+ ": " +:+ str range_hue_i) <$> range_hue in
  comprehension
    (λ i '(x_i, y_i),
       let* label := lift (py_index fit_label i) in
       KaplanMeierFitter_fit x_i y_i label)
    0 (zip X Y).

Definition plot_feature (idx : Z) (feature : string) : Py unit :=
  let* cat_fits := km_fits feature in
  let* _ := comprehension (λ _ x, kmf_plot x feature idx) 0 cat_fits in
  ret tt.

Definition PlotKaplanMeierEstimatesForCategoricalVariables
    (categorical_columns : list string) : Py unit :=
  let* categoricalData := data_loc_columns categorical_columns in
  let* _ := plt_subplots 2 3 in
  let* _ := for_enumerate plot_feature 0 categorical_columns in
  let* _ := set_visible (-1) false in
  let* _ := fig_suptitle "Kaplan Meier Estimates for Categorical Variables " in
  plt_show.

End Categorical.

(** ** The continuous routine *)

Module Continuous.

(** [km_fits(data, curr_Feature, split_points)]: one fit per observed
    bin; the bin of each row is stored in the scratch column
    [curr_Feature + "_group"] of the caller's dataset while the
    subgroups are extracted. *)
Definition km_fits (curr_Feature : string) (split_points : split_points)
  : Py (list KMFit) :=
  let* column := data_getitem curr_Feature in
  let* bins := lift (pd_cut column split_points) in
  let* range_hue := lift (np_unique bins) in
  let hue_group := curr_Feature +:+ "_group" in
  let* column' := data_getitem curr_Feature in
  let* bins' := lift (pd_cut column' split_points) in
  let* _ := data_setitem hue_group bins' in
  let* X := comprehension (λ _ bin_range, rows_where_eq hue_group bin_range "time") 0 range_hue in
  let* Y := comprehension (λ _ bin_range, rows_where_eq hue_group bin_range "DEATH_EVENT") 0 range_hue in
  let fit_label :=
    (λ range_hue_i,
       str_replace "]" ")" (str_replace "," " -" (str range_hue_i)))
      <$> range_hue in
  let* _ := data_drop hue_group in
  comprehension
    (λ i '(x_i, y_i),
       let* label := lift (py_index fit_label i) in
       KaplanMeierFitter_fit x_i y_i label)
    0 (zip X Y).

Definition data_split_points : list split_points :=
  [ SplitEdges [Qc_of 30 1; Qc_of 60 1; Qc_of 80 1; Qc_of 100 1];
    SplitCount 3;
    SplitEdges [Qc_of 0 1; Qc_of 30 1; Qc_of 45 1; Qc_of 100 1];
    SplitCount 3; SplitCount 3; SplitCount 3; SplitCount 3 ].

Definition plot_feature (idx : Z) (feature : string) : Py unit :=
  let* split := lift (py_index data_split_points idx) in
  let* cont_fits := km_fits feature split in
  let* _ := comprehension (λ _ x, kmf_plot x feature idx) 0 cont_fits in
  ret tt.

Definition PlotKaplanMeierEstimatesForContinuousVariables
    (contituous_columns : list string) : Py unit :=
  let* continuousData := data_loc_columns contituous_columns in
  let* _ := plt_subplots 3 3 in
  let* _ := for_enumerate plot_feature 0 contituous_columns in
  let* _ := set_visible (-1) false in
  let* _ := set_visible (-2) false in
  let* _ := fig_suptitle "Kaplan Meier Estimates for Continuous Variables " in
  plt_show.

End Continuous.

(** ** Vocabulary of the statements *)

(** A computation keeps [I], whatever its outcome. *)
Definition preserves {A} (I : World → Prop) (c : Py A) : Prop :=
  ∀ w o w', I w → c w = (o, w') → I w'.

(** The state before a call: the caller's dataset, no figure, no fit. *)
Definition world_of (df : DataFrame) : World := mkWorld df None [] false.

(** The state with [fits] added to the fits made so far. *)
Definition add_fitted (w : World) (fits : list KMFit) : World :=
  mkWorld (data w) (fig w) (fitted w ++ fits) (shown w).

(** All listed names are columns of the frame. *)
Definition all_present (df : DataFrame) (names : list string) : Prop :=
  ∀ c, c ∈ names → is_Some (df !! c).

(** The two fixed columns that every fit reads. *)
Definition has_schema (df : DataFrame) (t d : Series) : Prop :=
  df !! "time" = Some t ∧ df !! "DEATH_EVENT" = Some d.

(** The dataset has lost columns at most, and still has the two fixed
    columns. *)
Definition shrunk_from (df0 : DataFrame) (t d : Series) (w : World) : Prop :=
  data w ⊆ df0 ∧ has_schema (data w) t d.

(** What [KaplanMeierFitter_fit] accepts. *)
Definition fit_ok (x y : Series) : bool :=
  negb (bool_decide (series_len x = 0%nat)
        || negb (is_numeric x) || negb (is_numeric y)
        || negb (bool_decide (series_len x = series_len y))).

(** lifelines accepts the sample of the rows whose key equals [v]. *)
Definition group_ok (key t d : Series) (v : cell) : bool :=
  fit_ok (select (eq_mask key v) t) (select (eq_mask key v) d).

(** The label that [km_fits] of the categorical routine gives to the
    value [v] of the column [curr_Feature]. *)
Definition categorical_label (curr_Feature : string) (v : cell) : string :=
  curr_Feature +:+ ": " +:+ str v.

(** The label that [km_fits] of the continuous routine gives to the bin
    [v]. *)
Definition continuous_label (v : cell) : string :=
  str_replace "]" ")" (str_replace "," " -" (str v)).

(** The step of the last comprehension of both [km_fits]: the fit of the
    sample at position [i], with the label at that position. *)
Definition fit_step (label : cell → string) (range_hue : list cell)
  : Z → Series * Series → Py KMFit :=
  λ i '(x_i, y_i),
    let* lab := lift (py_index (label <$> range_hue) i) in
    KaplanMeierFitter_fit x_i y_i lab.

(** The result of both [km_fits]: one fit per value of [range_hue], on the
    durations and events of the rows whose key equals that value. *)
Definition strata (key t d : Series) (label : cell → string)
    (range_hue : list cell) : list KMFit :=
  (λ v, mkFit (label v) (select (eq_mask key v) t) (select (eq_mask key v) d))
    <$> range_hue.



(** The figure is an [r] by [c] grid. *)
Definition fig_shape (r c : nat) (w : World) : Prop :=
  ∃ f, fig w = Some f ∧ nrows f = r ∧ ncols f = c ∧ length (axes f) = (r * c)%nat.

(** The curves drawn on panel [i] of the figure. *)
Definition panel_curves (w : World) (i : nat) : option (list KMFit) :=
  match fig w with
  | Some f => ax_curves <$> axes f !! i
  | None => None
  end.

(** The labels of the curves drawn on panel [i]. *)
Definition panel_labels (w : World) (i : nat) : option (list string) :=
  match panel_curves w i with
  | Some curves => Some (fit_label <$> curves)
  | None => None
  end.

(** Whether panel [i] of the figure is shown. *)
Definition panel_visible (w : World) (i : nat) : option bool :=
  match fig w with
  | Some f => ax_visible <$> axes f !! i
  | None => None
  end.





(** A computation that shows the figure exactly when it returns: from a
    state where [shown] is [b], the figure is shown after a normal return
    and [shown] is still [b] after an exception. *)
Definition shows_on_return {A} (b : bool) (c : Py A) : Prop :=
  ∀ w, shown w = b →
    shown (c w).2 = match (c w).1 with Return _ => true | Raise _ => b end.

(** The curves of each panel of the figure, in the order of
    [ax.flatten()]. *)
Definition panels (w : World) : list (list KMFit) :=
  match fig w with
  | Some f => ax_curves <$> axes f
  | None => []
  end.

(** The curves drawn on the figure, panel after panel. *)
Definition drawn (w : World) : list KMFit := mjoin (panels w).

(** The title of panel [i] as the loops leave it: none while the panel
    holds no curve, the name of the column at position [i] once it holds
    one. *)
Definition titled (cols : list string) (i : nat) (a : Axes) : Prop :=
  ax_title a = match ax_curves a with [] => None | _ :: _ => cols !! i end.

(** The panels while the loop is at position [k]: titled, shown, and
    empty from position [k] on. *)
Definition layout_upto (cols : list string) (k : nat) (w : World) : Prop :=
  ∃ f, fig w = Some f
    ∧ ∀ i a, axes f !! i = Some a →
        titled cols i a ∧ ax_visible a = true ∧ ((k ≤ i)%nat → ax_curves a = []).

(** ** Sample datasets *)

(** Six rows with the columns of the heart-failure dataset. *)
Definition heart_frame : DataFrame :=
  list_to_map
    [ ("age", FloatS [Qc_of 75 1; Qc_of 55 1; Qc_of 65 1; Qc_of 50 1;
                     Qc_of 60667 1000; Qc_of 90 1]);
      ("anaemia", IntS [0; 0; 0; 1; 1; 1]%Z);
      ("creatinine_phosphokinase", IntS [582; 7861; 146; 111; 160; 47]%Z);
      ("diabetes", IntS [0; 0; 0; 0; 1; 0]%Z);
      ("ejection_fraction", IntS [20; 38; 20; 25; 60; 40]%Z);
      ("high_blood_pressure", IntS [1; 0; 0; 0; 0; 1]%Z);
      ("platelets", FloatS [Qc_of 265000 1; Qc_of 26335803 100; Qc_of 162000 1;
                           Qc_of 210000 1; Qc_of 327000 1; Qc_of 204000 1]);
      ("serum_creatinine", FloatS [Qc_of 19 10; Qc_of 11 10; Qc_of 13 10;
                                  Qc_of 19 10; Qc_of 27 10; Qc_of 21 10]);
      ("serum_sodium", IntS [130; 136; 129; 137; 116; 132]%Z);
      ("sex", IntS [1; 1; 1; 1; 0; 1]%Z);
      ("smoking", IntS [0; 0; 1; 0; 0; 1]%Z);
      ("time", IntS [4; 6; 7; 7; 8; 8]%Z);
      ("DEATH_EVENT", IntS [1; 1; 1; 0; 1; 0]%Z) ].

(** The continuous columns, in the order of the bin specifications. *)
Definition continuous_features : list string :=
  ["age"; "creatinine_phosphokinase"; "ejection_fraction"; "platelets";
   "serum_creatinine"; "serum_sodium"; "time"].


Definition categorical_features : list string :=
  ["anaemia"; "diabetes"; "high_blood_pressure"; "sex"; "smoking"].


(** Ten rows, six with [sex] 0 and four with [sex] 1. *)
Definition sex_frame : DataFrame :=
  list_to_map
    [ ("sex", IntS [1; 0; 0; 1; 0; 1; 0; 0; 1; 0]%Z);
      ("time", IntS [4; 6; 7; 8; 10; 11; 12; 13; 14; 15]%Z);
      ("DEATH_EVENT", IntS [1; 1; 0; 1; 0; 0; 1; 0; 1; 0]%Z) ].

(** A column of strings. *)
Definition names_frame : DataFrame :=
  list_to_map
    [ ("name", StrS ["ann"; "bob"]);
      ("time", IntS [4; 6]%Z);
      ("DEATH_EVENT", IntS [1; 0]%Z) ].

(** A dataset without the [time] column. *)
Definition untimed_frame : DataFrame :=
  list_to_map
    [ ("age", FloatS [Qc_of 45 1; Qc_of 70 1]);
      ("DEATH_EVENT", IntS [0; 1]%Z) ].



(** A dataset that already has a column named like the scratch column of
    [age]. *)
Definition grouped_frame : DataFrame :=
  list_to_map
    [ ("age", FloatS [Qc_of 45 1; Qc_of 70 1]);
      ("age_group", StrS ["young"; "old"]);
      ("time", IntS [4; 6]%Z);
      ("DEATH_EVENT", IntS [1; 0]%Z) ].

(** A dataset without rows. *)
Definition empty_frame : DataFrame :=
  list_to_map
    [ ("age", FloatS []); ("sex", IntS []);
      ("time", IntS []); ("DEATH_EVENT", IntS []) ].

(** * Properties *)

(** ** Stepping through a computation *)

Lemma bind_return {A B} (c : Py A) (k : A → Py B) w a w' :
  c w = (Return a, w') → bind c k w = k a w'.
Proof. unfold bind. by intros ->. Qed.

Lemma bind_raise {A B} (c : Py A) (k : A → Py B) w e w' :
  c w = (Raise e, w') → bind c k w = (Raise e, w').
Proof. unfold bind. by intros ->. Qed.

Lemma bind_inv {A B} (c : Py A) (k : A → Py B) w o w' :
  bind c k w = (o, w') →
  (∃ a w1, c w = (Return a, w1) ∧ k a w1 = (o, w'))
  ∨ (∃ e, c w = (Raise e, w') ∧ o = Raise e).
Proof.
  unfold bind. destruct (c w) as [[a|e] w1]; intros H.
  - left. eauto.
  - right. exists e. by inversion H.
Qed.

Lemma preserves_bind {A B} I (c : Py A) (k : A → Py B) :
  preserves I c → (∀ a, preserves I (k a)) → preserves I (bind c k).
Proof.
  intros Hc Hk w o w' HI H.
  destruct (bind_inv _ _ _ _ _ H) as [(a & w1 & H1 & H2)|(e & H1 & _)].
  - eapply Hk; [|exact H2]. eapply Hc; [exact HI|exact H1].
  - eapply Hc; [exact HI|exact H1].
Qed.

Lemma preserves_ret {A} I (a : A) : preserves I (ret a).
Proof. intros w o w' HI H. by inversion H; subst. Qed.

Lemma preserves_lift {A} I (o : outcome A) : preserves I (lift o).
Proof. intros w o' w' HI H. by inversion H; subst. Qed.

Lemma preserves_comprehension {A B} I (f : Z → A → Py B) :
  (∀ i x, preserves I (f i x)) → ∀ l idx, preserves I (comprehension f idx l).
Proof.
  intros Hf l. induction l as [|x l IH]; intros idx; simpl.
  - apply preserves_ret.
  - apply preserves_bind; [apply Hf|]. intros y.
    apply preserves_bind; [apply IH|]. intros ys. apply preserves_ret.
Qed.

Lemma preserves_for_enumerate {A} I (body : Z → A → Py unit) :
  (∀ i x, preserves I (body i x)) → ∀ l idx, preserves I (for_enumerate body idx l).
Proof.
  intros Hf l. induction l as [|x l IH]; intros idx; simpl.
  - apply preserves_ret.
  - apply preserves_bind; [apply Hf|]. intros _. apply IH.
Qed.

(** The steps that read the state without changing it. *)
Lemma preserves_data_getitem I name : preserves I (data_getitem name).
Proof. intros w o w' HI H. by inversion H; subst. Qed.

Lemma preserves_rows_where_eq I key v name : preserves I (rows_where_eq key v name).
Proof.
  apply preserves_bind; [apply preserves_data_getitem|].
  intros c w o w' HI H. by inversion H; subst.
Qed.

Lemma preserves_axes_position I idx : preserves I (axes_position idx).
Proof.
  intros w o w' HI H. unfold axes_position in H.
  destruct (fig w); [destruct (py_index _ _)|]; by inversion H; subst.
Qed.

(** ** The figure: what each step does to it *)

Lemma fig_data_setitem name s w o w' :
  data_setitem name s w = (o, w') → fig w' = fig w ∧ o = Return tt.
Proof. intros H. by inversion H. Qed.

Lemma fig_data_drop name w o w' :
  data_drop name w = (o, w') → fig w' = fig w.
Proof. unfold data_drop. intros H. destruct (df_drop _ _); by inversion H. Qed.

Lemma fig_fit x y label w o w' :
  KaplanMeierFitter_fit x y label w = (o, w') → fig w' = fig w.
Proof. unfold KaplanMeierFitter_fit. intros H. case_match; by inversion H. Qed.

(** A predicate on the figure alone is kept by every step on the data and
    by the estimator. *)
Section fig_only.
Context (P : option Figure → Prop).
Let I : World → Prop := λ w, P (fig w).

Lemma fig_only_setitem name s : preserves I (data_setitem name s).
Proof. intros w o w' HI H. unfold I. by destruct (fig_data_setitem _ _ _ _ _ H) as [-> _]. Qed.

Lemma fig_only_drop name : preserves I (data_drop name).
Proof. intros w o w' HI H. unfold I. by rewrite (fig_data_drop _ _ _ _ H). Qed.

Lemma fig_only_fit x y label : preserves I (KaplanMeierFitter_fit x y label).
Proof. intros w o w' HI H. unfold I. by rewrite (fig_fit _ _ _ _ _ _ H). Qed.

Lemma fig_only_fits labels l idx :
  preserves I
    (comprehension
       (λ i '(x_i, y_i),
          let* label := lift (py_index labels i) in
          KaplanMeierFitter_fit x_i y_i label) idx l).
Proof.
  apply preserves_comprehension. intros i [x y].
  apply preserves_bind; [apply preserves_lift|]. intros. apply fig_only_fit.
Qed.

Lemma fig_only_km_fits_categorical feature : preserves I (Categorical.km_fits feature).
Proof.
  unfold Categorical.km_fits.
  apply preserves_bind; [apply preserves_data_getitem|]; intros column.
  apply preserves_bind; [apply preserves_lift|]; intros range_hue.
  apply preserves_bind; [apply preserves_comprehension; intros; apply preserves_rows_where_eq|]; intros X.
  apply preserves_bind; [apply preserves_comprehension; intros; apply preserves_rows_where_eq|]; intros Y.
  apply fig_only_fits.
Qed.

Lemma fig_only_km_fits_continuous feature split :
  preserves I (Continuous.km_fits feature split).
Proof.
  unfold Continuous.km_fits.
  apply preserves_bind; [apply preserves_data_getitem|]; intros column.
  apply preserves_bind; [apply preserves_lift|]; intros bins.
  apply preserves_bind; [apply preserves_lift|]; intros range_hue.
  apply preserves_bind; [apply preserves_data_getitem|]; intros column'.
  apply preserves_bind; [apply preserves_lift|]; intros bins'.
  apply preserves_bind; [apply fig_only_setitem|]; intros _.
  apply preserves_bind; [apply preserves_comprehension; intros; apply preserves_rows_where_eq|]; intros X.
  apply preserves_bind; [apply preserves_comprehension; intros; apply preserves_rows_where_eq|]; intros Y.
  apply preserves_bind; [apply fig_only_drop|]; intros _.
  apply fig_only_fits.
Qed.
End fig_only.

Lemma fig_shape_update_axes r c k g : preserves (fig_shape r c) (update_axes k g).
Proof.
  intros w o w' (f & Hf & Hr & Hc & Hlen) H. inversion H; subst; clear H.
  rewrite Hf. eexists; split; [done|]. simpl. by rewrite length_alter.
Qed.

Lemma fig_shape_kmf_plot r c kmf title idx : preserves (fig_shape r c) (kmf_plot kmf title idx).
Proof.
  apply preserves_bind; [apply preserves_axes_position|].
  intros k. apply fig_shape_update_axes.
Qed.

Lemma fig_shape_set_visible r c idx b : preserves (fig_shape r c) (set_visible idx b).
Proof.
  apply preserves_bind; [apply preserves_axes_position|].
  intros k. apply fig_shape_update_axes.
Qed.

Lemma fig_shape_plots r c feature idx fits i :
  preserves (fig_shape r c) (comprehension (λ _ x, kmf_plot x feature idx) i fits).
Proof. apply preserves_comprehension. intros. apply fig_shape_kmf_plot. Qed.

Lemma fig_shape_plot_feature_categorical r c idx feature :
  preserves (fig_shape r c) (Categorical.plot_feature idx feature).
Proof.
  apply preserves_bind; [apply (fig_only_km_fits_categorical (λ o, ∃ f, o = Some f ∧ _))|].
  intros fits. apply preserves_bind; [apply fig_shape_plots|].
  intros. apply preserves_ret.
Qed.

Lemma fig_shape_plot_feature_continuous r c idx feature :
  preserves (fig_shape r c) (Continuous.plot_feature idx feature).
Proof.
  apply preserves_bind; [apply preserves_lift|]. intros split.
  apply preserves_bind; [apply (fig_only_km_fits_continuous (λ o, ∃ f, o = Some f ∧ _))|].
  intros fits. apply preserves_bind; [apply fig_shape_plots|].
  intros. apply preserves_ret.
Qed.

Lemma fig_shape_subplots r c w : fig_shape r c (plt_subplots r c w).2.
Proof. eexists; split; [done|]. simpl. by rewrite length_replicate. Qed.

(** Hiding a panel of an [n]-panel figure by its position from the end. *)
Lemma set_visible_from_end r c (j : nat) w :
  fig_shape r c w → (0 < j ≤ r * c)%nat →
  ∃ f, fig w = Some f ∧
    set_visible (- Z.of_nat j) false w
    = (Return tt,
       mkWorld (data w)
         (Some (mkFigure (nrows f) (ncols f)
                  (alter (λ a, mkAxes (ax_title a) (ax_curves a) false)
                     (r * c - j) (axes f)) (suptitle f)))
         (fitted w) (shown w)).
Proof.
  intros (f & Hf & Hr & Hc & Hlen) Hj. exists f. split; [done|].
  unfold set_visible, bind, axes_position, py_index. rewrite Hf, length_seq, Hlen.
  destruct (Z.ltb_spec (- Z.of_nat j) 0) as [_|]; [|lia].
  destruct (Z.ltb_spec (Z.of_nat (r * c) + - Z.of_nat j) 0) as [|_]; [lia|].
  replace (Z.to_nat (Z.of_nat (r * c) + - Z.of_nat j)) with (r * c - j)%nat by lia.
  rewrite lookup_seq_lt by lia. unfold update_axes. simpl. by rewrite Hf.
Qed.

Lemma bind_inv_return {A B} (c : Py A) (k : A → Py B) w b w' :
  bind c k w = (Return b, w') →
  ∃ a w1, c w = (Return a, w1) ∧ k a w1 = (Return b, w').
Proof.
  intros H. destruct (bind_inv _ _ _ _ _ H) as [?|(e & _ & ?)]; [done|discriminate].
Qed.

Ltac bind_inv_return H a w1 H1 :=
  apply bind_inv_return in H; destruct H as (a & w1 & H1 & H).

Lemma categorical_figure_on_return cols w w' :
  Categorical.PlotKaplanMeierEstimatesForCategoricalVariables cols w = (Return tt, w') →
  ∃ f, fig w' = Some f ∧ nrows f = 2%nat ∧ ncols f = 3%nat ∧ length (axes f) = 6%nat
       ∧ ax_visible <$> axes f !! 5%nat = Some false.
Proof.
  unfold Categorical.PlotKaplanMeierEstimatesForCategoricalVariables. intros H.
  bind_inv_return H proj w1 Hproj.
  assert (w1 = w) as -> by (unfold data_loc_columns in Hproj; by inversion Hproj).
  clear Hproj. bind_inv_return H u w2 Hsub.
  assert (fig_shape 2 3 w2) as Hshape.
  { replace w2 with (plt_subplots 2 3 w).2 by (by rewrite Hsub). apply fig_shape_subplots. }
  bind_inv_return H u1 w3 Hloop.
  apply (preserves_for_enumerate (fig_shape 2 3) _
           (fig_shape_plot_feature_categorical 2 3) cols 0 w2 _ _ Hshape) in Hloop.
  destruct (set_visible_from_end 2 3 1 w3 Hloop ltac:(lia)) as (f & Hf & Hvis).
  destruct Hloop as (f' & Hf' & Hr & Hc & Hlen).
  assert (f' = f) as -> by congruence.
  bind_inv_return H u2 w4 Hhide. change (- Z.of_nat 1)%Z with (-1)%Z in Hvis.
  rewrite Hvis in Hhide. inversion Hhide; subst w4; clear Hhide Hvis.
  bind_inv_return H u3 w5 Htitle. inversion Htitle; subst w5; clear Htitle.
  inversion H; subst w'; clear H. simpl.
  destruct (lookup_lt_is_Some_2 (axes f) 5 ltac:(simpl in *; lia)) as [a5 Ha5].
  eexists; repeat split; simpl; try done.
  - by rewrite length_alter.
  - by rewrite list_lookup_alter_eq, Ha5.
Qed.

Lemma continuous_figure_on_return cols w w' :
  Continuous.PlotKaplanMeierEstimatesForContinuousVariables cols w = (Return tt, w') →
  ∃ f, fig w' = Some f ∧ nrows f = 3%nat ∧ ncols f = 3%nat ∧ length (axes f) = 9%nat
       ∧ ax_visible <$> axes f !! 8%nat = Some false
       ∧ ax_visible <$> axes f !! 7%nat = Some false.
Proof.
  unfold Continuous.PlotKaplanMeierEstimatesForContinuousVariables. intros H.
  bind_inv_return H proj w1 Hproj.
  assert (w1 = w) as -> by (unfold data_loc_columns in Hproj; by inversion Hproj).
  clear Hproj. bind_inv_return H u w2 Hsub.
  assert (fig_shape 3 3 w2) as Hshape.
  { replace w2 with (plt_subplots 3 3 w).2 by (by rewrite Hsub). apply fig_shape_subplots. }
  bind_inv_return H u1 w3 Hloop.
  apply (preserves_for_enumerate (fig_shape 3 3) _
           (fig_shape_plot_feature_continuous 3 3) cols 0 w2 _ _ Hshape) in Hloop.
  destruct (set_visible_from_end 3 3 1 w3 Hloop ltac:(lia)) as (f & Hf & Hvis).
  destruct Hloop as (f' & Hf' & Hr & Hc & Hlen).
  assert (f' = f) as -> by congruence.
  bind_inv_return H u2 w4 Hhide. change (- Z.of_nat 1)%Z with (-1)%Z in Hvis.
  rewrite Hvis in Hhide. inversion Hhide; subst w4; clear Hhide Hvis.
  match type of H with bind _ _ ?w4 = _ =>
    assert (fig_shape 3 3 w4) as Hshape4
  end.
  { eexists; split; [done|]. simpl. by rewrite length_alter. }
  destruct (set_visible_from_end 3 3 2 _ Hshape4 ltac:(lia)) as (f4 & Hf4 & Hvis).
  simpl in Hf4. inversion Hf4; subst f4; clear Hf4.
  bind_inv_return H u3 w5 Hhide2. change (- Z.of_nat 2)%Z with (-2)%Z in Hvis.
  rewrite Hvis in Hhide2. inversion Hhide2; subst w5; clear Hhide2 Hvis.
  bind_inv_return H u4 w6 Htitle. inversion Htitle; subst w6; clear Htitle.
  inversion H; subst w'; clear H. simpl.
  destruct (lookup_lt_is_Some_2 (axes f) 8 ltac:(simpl in *; lia)) as [a8 Ha8].
  destruct (lookup_lt_is_Some_2 (axes f) 7 ltac:(simpl in *; lia)) as [a7 Ha7].
  eexists; repeat split; simpl; try done.
  - by rewrite !length_alter.
  - rewrite list_lookup_alter_ne by done. by rewrite list_lookup_alter_eq, Ha8.
  - rewrite list_lookup_alter_eq, list_lookup_alter_ne by done. by rewrite Ha7.
Qed.

(** ** Extracting the subgroups and fitting them *)

Lemma comprehension_pure {A B} (f : Z → A → Py B) (g : A → B) l w :
  (∀ i x, x ∈ l → f i x w = (Return (g x), w)) →
  ∀ idx, comprehension f idx l w = (Return (g <$> l), w).
Proof.
  induction l as [|x l IH]; intros Hf idx; simpl; [done|].
  rewrite (bind_return _ _ _ _ _ (Hf idx x ltac:(left))).
  rewrite (bind_return _ _ _ _ _ (IH (λ i y Hy, Hf i y ltac:(by right)) (idx + 1)%Z)).
  done.
Qed.

Lemma rows_where_eq_found key v name w s c :
  data w !! key = Some s → data w !! name = Some c →
  rows_where_eq key v name w = (Return (select (eq_mask s v) c), w).
Proof.
  intros Hs Hc. unfold rows_where_eq, bind, data_getitem, df_getitem, df_where.
  by rewrite Hs, lookup_fmap, Hc.
Qed.

Lemma rows_where_eq_missing key v name w s :
  data w !! key = Some s → data w !! name = None →
  rows_where_eq key v name w = (Raise (KeyError [name]), w).
Proof.
  intros Hs Hc. unfold rows_where_eq, bind, data_getitem, df_getitem, df_where.
  by rewrite Hs, lookup_fmap, Hc.
Qed.

Lemma add_fitted_nil w : add_fitted w [] = w.
Proof. destruct w. unfold add_fitted. simpl. by rewrite app_nil_r. Qed.

Lemma add_fitted_cons w kmf fits :
  add_fitted (add_fitted w [kmf]) fits = add_fitted w (kmf :: fits).
Proof. unfold add_fitted. simpl. by rewrite <-app_assoc. Qed.

Lemma fit_run x y label w :
  KaplanMeierFitter_fit x y label w
  = if fit_ok x y then (Return (mkFit label x y), add_fitted w [mkFit label x y])
    else (Raise ValueError, w).
Proof.
  unfold KaplanMeierFitter_fit, fit_ok.
  by destruct (_ || _ || _ || _).
Qed.

Lemma py_index_nat {A} (l : list A) (k : nat) :
  py_index l (Z.of_nat k)
  = match l !! k with Some x => Return x | None => Raise IndexError end.
Proof.
  unfold py_index. destruct (Z.ltb_spec (Z.of_nat k) 0) as [|_]; [lia|].
  destruct (Z.ltb_spec (Z.of_nat k) 0) as [|_]; [lia|].
  by rewrite Nat2Z.id.
Qed.

Lemma zip_fmap_same {A B C} (f : A → B) (g : A → C) (l : list A) :
  zip (f <$> l) (g <$> l) = (λ v, (f v, g v)) <$> l.
Proof. induction l as [|x l IH]; simpl; [done|]. f_equal. exact IH. Qed.

Lemma comprehension_cons {A B} (f : Z → A → Py B) idx x l :
  comprehension f idx (x :: l)
  = bind (f idx x) (λ y, bind (comprehension f (idx + 1)%Z l) (λ ys, ret (y :: ys))).
Proof. done. Qed.

Lemma bind_eq {A B} (c : Py A) (k : A → Py B) w :
  bind c k w
  = match c w with (Return a, w') => k a w' | (Raise e, w') => (Raise e, w') end.
Proof. done. Qed.

Section fits.
Context (label : cell → string) (gx gy : cell → Series) (range_hue : list cell).

Let fit_at : Z → Series * Series → Py KMFit := fit_step label range_hue.
Let mk : cell → KMFit := λ v, mkFit (label v) (gx v) (gy v).

Lemma fit_step_at pre v post w :
  range_hue = pre ++ v :: post →
  fit_at (Z.of_nat (length pre)) (gx v, gy v) w
  = if fit_ok (gx v) (gy v) then (Return (mk v), add_fitted w [mk v])
    else (Raise ValueError, w).
Proof.
  intros Hrange. unfold fit_at, fit_step. rewrite bind_eq. unfold lift.
  rewrite py_index_nat, list_lookup_fmap, Hrange.
  rewrite lookup_app_r, Nat.sub_diag by done. simpl. apply fit_run.
Qed.

Lemma fits_from post : ∀ pre w,
  range_hue = pre ++ post →
  forallb (λ v, fit_ok (gx v) (gy v)) post = true →
  comprehension fit_at (Z.of_nat (length pre)) ((λ v, (gx v, gy v)) <$> post) w
  = (Return (mk <$> post), add_fitted w (mk <$> post)).
Proof.
  induction post as [|v post IH]; intros pre w Hrange Hok.
  - simpl. by rewrite add_fitted_nil.
  - simpl in Hok. apply andb_true_iff in Hok as [Hv Hok].
    rewrite fmap_cons, comprehension_cons, bind_eq.
    rewrite (fit_step_at pre v post w Hrange), Hv.
    replace (Z.of_nat (length pre) + 1)%Z with (Z.of_nat (length (pre ++ [v])))
      by (rewrite length_app; simpl; lia).
    rewrite bind_eq, (IH (pre ++ [v])); [|by rewrite <-app_assoc|done].
    unfold ret. by rewrite add_fitted_cons.
Qed.

Lemma fits_from_reject post : ∀ pre w,
  range_hue = pre ++ post →
  forallb (λ v, fit_ok (gx v) (gy v)) post = false →
  ∃ done_fits,
    comprehension fit_at (Z.of_nat (length pre)) ((λ v, (gx v, gy v)) <$> post) w
    = (Raise ValueError, add_fitted w done_fits).
Proof.
  induction post as [|v post IH]; intros pre w Hrange Hok; [done|].
  simpl in Hok.
  rewrite fmap_cons, comprehension_cons, bind_eq.
  rewrite (fit_step_at pre v post w Hrange).
  destruct (fit_ok (gx v) (gy v)) eqn:Hv; simpl in Hok.
  - replace (Z.of_nat (length pre) + 1)%Z with (Z.of_nat (length (pre ++ [v])))
      by (rewrite length_app; simpl; lia).
    destruct (IH (pre ++ [v]) (add_fitted w [mk v])) as [done_fits Hrun];
      [by rewrite <-app_assoc|done|].
    rewrite bind_eq, Hrun. exists (mk v :: done_fits).
    by rewrite add_fitted_cons.
  - exists []. by rewrite add_fitted_nil.
Qed.

(** Fitting the extracted samples: all fits are made, or the first
    sample lifelines rejects ends the call with [ValueError]. *)
Lemma fits_all w :
  comprehension fit_at 0 (zip (gx <$> range_hue) (gy <$> range_hue)) w
  = (Return (mk <$> range_hue), add_fitted w (mk <$> range_hue))
    ∧ forallb (λ v, fit_ok (gx v) (gy v)) range_hue = true
  ∨ (∃ done_fits,
       comprehension fit_at 0 (zip (gx <$> range_hue) (gy <$> range_hue)) w
       = (Raise ValueError, add_fitted w done_fits))
    ∧ forallb (λ v, fit_ok (gx v) (gy v)) range_hue = false.
Proof.
  rewrite zip_fmap_same.
  destruct (forallb _ range_hue) eqn:Hok.
  - left. split; [|done]. by apply (fits_from range_hue []).
  - right. split; [|done]. by apply (fits_from_reject range_hue []).
Qed.
End fits.

(** [km_fits] of the categorical routine on a dataset that has the
    column and the two fixed columns: it changes nothing but the list of
    fits, and returns the strata of the column unless lifelines rejects a
    sample. *)
Lemma km_fits_categorical_run col w s range_hue t d :
  data w !! col = Some s → np_unique s = Return range_hue →
  data w !! "time" = Some t → data w !! "DEATH_EVENT" = Some d →
  let fits := strata s t d (categorical_label col) range_hue in
  Categorical.km_fits col w = (Return fits, add_fitted w fits)
    ∧ forallb (group_ok s t d) range_hue = true
  ∨ (∃ done_fits, Categorical.km_fits col w = (Raise ValueError, add_fitted w done_fits))
    ∧ forallb (group_ok s t d) range_hue = false.
Proof.
  intros Hs Huniq Ht Hd fits.
  assert (Categorical.km_fits col w
          = comprehension (fit_step (categorical_label col) range_hue) 0
              (zip ((λ v, select (eq_mask s v) t) <$> range_hue)
                   ((λ v, select (eq_mask s v) d) <$> range_hue)) w) as ->.
  { unfold Categorical.km_fits.
    rewrite bind_eq. unfold data_getitem at 1, df_getitem. rewrite Hs.
    rewrite bind_eq. unfold lift at 1. rewrite Huniq.
    rewrite bind_eq, (comprehension_pure _ (λ v, select (eq_mask s v) t));
      [|intros; by apply rows_where_eq_found].
    rewrite bind_eq, (comprehension_pure _ (λ v, select (eq_mask s v) d));
      [|intros; by apply rows_where_eq_found].
    done. }
  apply (fits_all (categorical_label col)
           (λ v, select (eq_mask s v) t) (λ v, select (eq_mask s v) d) range_hue w).
Qed.

(** [km_fits] of the continuous routine, step by step: the scratch column
    is written, the samples are read through it, and it is dropped before
    the fits. *)
Lemma km_fits_continuous_run col split w s bins range_hue t d :
  data w !! col = Some s → pd_cut s split = Return bins →
  np_unique bins = Return range_hue →
  data w !! "time" = Some t → data w !! "DEATH_EVENT" = Some d →
  col +:+ "_group" ≠ "time" → col +:+ "_group" ≠ "DEATH_EVENT" →
  let fits := strata bins t d continuous_label range_hue in
  let w1 := mkWorld (delete (col +:+ "_group") (data w)) (fig w) (fitted w) (shown w) in
  Continuous.km_fits col split w = (Return fits, add_fitted w1 fits)
    ∧ forallb (group_ok bins t d) range_hue = true
  ∨ (∃ done_fits, Continuous.km_fits col split w = (Raise ValueError, add_fitted w1 done_fits))
    ∧ forallb (group_ok bins t d) range_hue = false.
Proof.
  intros Hs Hcut Huniq Ht Hd Hnt Hnd fits w1.
  assert (Continuous.km_fits col split w
          = comprehension (fit_step continuous_label range_hue) 0
              (zip ((λ v, select (eq_mask bins v) t) <$> range_hue)
                   ((λ v, select (eq_mask bins v) d) <$> range_hue)) w1) as ->.
  { unfold Continuous.km_fits.
    rewrite bind_eq. unfold data_getitem at 1, df_getitem. rewrite Hs.
    rewrite bind_eq. unfold lift at 1. rewrite Hcut.
    rewrite bind_eq. unfold lift at 1. rewrite Huniq.
    rewrite bind_eq. unfold data_getitem at 1, df_getitem. rewrite Hs.
    rewrite bind_eq. unfold lift at 1. rewrite Hcut.
    rewrite bind_eq. unfold data_setitem at 1, df_setitem.
    set (w2 := mkWorld (<[col +:+ "_group" := bins]> (data w)) (fig w) (fitted w) (shown w)).
    assert (data w2 !! (col +:+ "_group") = Some bins) as Hg by apply lookup_insert_eq.
    assert (data w2 !! "time" = Some t) as Ht2 by (simpl; by rewrite lookup_insert_ne).
    assert (data w2 !! "DEATH_EVENT" = Some d) as Hd2 by (simpl; by rewrite lookup_insert_ne).
    rewrite bind_eq, (comprehension_pure _ (λ v, select (eq_mask bins v) t));
      [|intros; by apply rows_where_eq_found].
    rewrite bind_eq, (comprehension_pure _ (λ v, select (eq_mask bins v) d));
      [|intros; by apply rows_where_eq_found].
    rewrite bind_eq. unfold data_drop at 1, df_drop. rewrite Hg. simpl.
    by rewrite delete_insert_eq. }
  apply (fits_all continuous_label
           (λ v, select (eq_mask bins v) t) (λ v, select (eq_mask bins v) d) range_hue w1).
Qed.

(** ** [np.unique]: the distinct values, sorted *)

Lemma ascii_compare_refl a : Ascii.compare a a = Eq.
Proof. unfold Ascii.compare. apply N.compare_refl. Qed.

Lemma ascii_compare_lt_trans a b c :
  Ascii.compare a b = Lt → Ascii.compare b c = Lt → Ascii.compare a c = Lt.
Proof. unfold Ascii.compare. rewrite !N.compare_lt_iff. lia. Qed.

Lemma string_compare_refl s : String.compare s s = Eq.
Proof. induction s as [|a s IH]; simpl; [done|]. by rewrite ascii_compare_refl. Qed.

Lemma string_compare_lt_trans a : ∀ b c,
  String.compare a b = Lt → String.compare b c = Lt → String.compare a c = Lt.
Proof.
  induction a as [|x a IH]; intros [|y b] [|z c]; simpl; try done.
  destruct (Ascii.compare x y) eqn:Hxy; [| |done];
    destruct (Ascii.compare y z) eqn:Hyz; try done.
  - apply Ascii.compare_eq_iff in Hxy, Hyz. subst.
    rewrite ascii_compare_refl. apply IH.
  - apply Ascii.compare_eq_iff in Hxy. subst. by rewrite Hyz.
  - apply Ascii.compare_eq_iff in Hyz. subst. by rewrite Hxy.
  - by rewrite (ascii_compare_lt_trans x y z Hxy Hyz).
Qed.

Lemma string_leb_trans a b c :
  String.leb a b = true → String.leb b c = true → String.leb a c = true.
Proof.
  unfold String.leb.
  destruct (String.compare a b) eqn:Hab; [| |done];
    destruct (String.compare b c) eqn:Hbc; try done; intros _ _.
  - apply String.compare_eq_iff in Hab, Hbc. subst.
    by rewrite string_compare_refl.
  - apply String.compare_eq_iff in Hab. subst. by rewrite Hbc.
  - apply String.compare_eq_iff in Hbc. subst. by rewrite Hab.
  - by rewrite (string_compare_lt_trans a b c Hab Hbc).
Qed.

Lemma interval_leb_total i j : interval_leb i j = true ∨ interval_leb j i = true.
Proof.
  unfold interval_leb. destruct i as [a b], j as [a' b']; simpl.
  destruct (Qclt_le_dec a a') as [Hlt|Hle].
  - left. by rewrite (bool_decide_eq_true_2 _ Hlt).
  - destruct (Qcle_lt_or_eq _ _ Hle) as [Hlt|<-].
    + right. by rewrite (bool_decide_eq_true_2 _ Hlt).
    + rewrite (bool_decide_eq_true_2 (a' = a') eq_refl). simpl.
      destruct (Qc_le_total b b') as [H|H]; [left|right];
        rewrite (bool_decide_eq_true_2 _ H); by rewrite orb_true_r.
Qed.

Lemma interval_leb_trans i j k :
  interval_leb i j = true → interval_leb j k = true → interval_leb i k = true.
Proof.
  unfold interval_leb. destruct i as [a b], j as [a' b'], k as [a'' b'']; simpl.
  rewrite !orb_true_iff, !andb_true_iff, !bool_decide_eq_true.
  intros [H1|[-> H1]] [H2|[-> H2]].
  - left. by apply Qclt_trans with a'.
  - by left.
  - by left.
  - right. split; [done|]. by apply Qcle_trans with b'.
Qed.

#[global] Instance cell_le_total : Total cell_le.
Proof.
  intros a b. unfold cell_le.
  destruct a as [x|x|x|x|], b as [y|y|y|y|]; simpl;
    try (by left); try (by right).
  - rewrite !bool_decide_eq_true. lia.
  - rewrite !bool_decide_eq_true. apply Qc_le_total.
  - apply String.leb_total.
  - apply interval_leb_total.
Qed.

#[global] Instance cell_le_trans : Transitive cell_le.
Proof.
  intros a b c. unfold cell_le.
  destruct a as [x|x|x|x|], b as [y|y|y|y|], c as [z|z|z|z|]; simpl;
    try done.
  - rewrite !bool_decide_eq_true. lia.
  - rewrite !bool_decide_eq_true. apply Qcle_trans.
  - apply string_leb_trans.
  - apply interval_leb_trans.
Qed.

Lemma np_unique_cases s range_hue :
  np_unique s = Return range_hue →
  (forallb is_nan (values s) = true ∧ range_hue = values s)
  ∨ (existsb is_nan (values s) = false
     ∧ range_hue = merge_sort cell_le (remove_dups (values s))).
Proof.
  unfold np_unique. destruct (forallb is_nan (values s)) eqn:Hall.
  - intros [= <-]. by left.
  - destruct (existsb is_nan (values s)) eqn:Hex; [done|].
    intros [= <-]. by right.
Qed.

Lemma no_nan_all_nan (vs : list cell) :
  existsb is_nan vs = false → forallb is_nan vs = true → vs = [].
Proof. destruct vs as [|v vs]; [done|]. simpl. by destruct (is_nan v). Qed.

(** On a column without missing values, [np.unique] returns every value
    of the column once, in increasing order. *)
Lemma np_unique_plain s :
  existsb is_nan (values s) = false →
  ∃ range_hue,
    np_unique s = Return range_hue
    ∧ range_hue ≡ₚ remove_dups (values s)
    ∧ StronglySorted cell_le range_hue.
Proof.
  intros Hex. unfold np_unique. rewrite Hex.
  destruct (forallb is_nan (values s)) eqn:Hall.
  - rewrite (no_nan_all_nan _ Hex Hall). exists []. split; [done|].
    split; [done|constructor].
  - eexists. split; [done|]. split.
    + apply merge_sort_Permutation.
    + apply StronglySorted_merge_sort; apply _.
Qed.

Lemma np_unique_plain_elem s range_hue :
  existsb is_nan (values s) = false → np_unique s = Return range_hue →
  NoDup range_hue ∧ (∀ v, v ∈ range_hue ↔ v ∈ values s)
  ∧ length range_hue = length (remove_dups (values s))
  ∧ StronglySorted cell_le range_hue.
Proof.
  intros Hex Hu. destruct (np_unique_plain s Hex) as (r & Hr & Hperm & Hsort).
  rewrite Hu in Hr. injection Hr as <-. repeat split.
  - rewrite Hperm. apply NoDup_remove_dups.
  - rewrite Hperm. apply elem_of_remove_dups.
  - rewrite Hperm. apply elem_of_remove_dups.
  - by rewrite Hperm.
  - done.
Qed.

Lemma values_no_nan_plain s :
  match s with CatS _ _ => False | _ => True end →
  existsb is_nan (values s) = false.
Proof.
  destruct s as [xs|xs|xs|cats codes]; simpl; [| | |done]; intros _;
    induction xs; simpl; auto.
Qed.

(** ** Boolean masks and the rows they select *)

Lemma mask_filter_fmap {A B} (f : A → B) mask (l : list A) :
  mask_filter mask (f <$> l) = f <$> mask_filter mask l.
Proof.
  revert l. induction mask as [|b mask IH]; intros [|x l]; simpl; try done.
  destruct b; simpl; by rewrite IH.
Qed.

Lemma values_select mask s : values (select mask s) = mask_filter mask (values s).
Proof. destruct s; simpl; by rewrite mask_filter_fmap. Qed.

Lemma is_numeric_select mask s : is_numeric (select mask s) = is_numeric s.
Proof. by destruct s. Qed.

Lemma mask_filter_length {A B} mask (l1 : list A) (l2 : list B) :
  length l1 = length l2 →
  length (mask_filter mask l1) = length (mask_filter mask l2).
Proof.
  revert l1 l2. induction mask as [|b mask IH]; intros [|x l1] [|y l2]; simpl; try done.
  intros [= Hlen]. destruct b; simpl; by rewrite (IH l1 l2).
Qed.


Lemma cell_eqb_eq x v : is_nan x = false → cell_eqb x v = bool_decide (x = v).
Proof.
  intros Hx. unfold cell_eqb. rewrite Hx. simpl.
  destruct (is_nan v) eqn:Hv; [|done].
  destruct v; try done. symmetry. apply bool_decide_eq_false. by intros ->.
Qed.

(** The rows a mask [column == v] selects are the rows whose key is [v]. *)
Lemma mask_filter_eq_mask {B} (keys : list cell) (rest : list B) v :
  existsb is_nan keys = false →
  mask_filter ((λ x, cell_eqb x v) <$> keys) rest
  = snd <$> filter (λ r, r.1 = v) (zip keys rest).
Proof.
  revert rest. induction keys as [|x keys IH]; intros [|y rest] Hnan; simpl; try done.
  simpl in Hnan. apply orb_false_iff in Hnan as [Hx Hnan].
  rewrite (cell_eqb_eq _ _ Hx). rewrite filter_cons. simpl.
  destruct (decide (x = v)) as [->|Hne].
  - rewrite bool_decide_eq_true_2 by done. simpl. by rewrite IH.
  - rewrite bool_decide_eq_false_2 by done. by rewrite IH.
Qed.


Lemma stratum_size s t v :
  existsb is_nan (values s) = false → series_len t = series_len s →
  series_len (select (eq_mask s v) t) = length (filter (λ x, x = v) (values s)).
Proof.
  intros Hnan Hlen. unfold series_len in *. rewrite values_select.
  unfold eq_mask. rewrite (mask_filter_length _ _ (values s) Hlen).
  rewrite (mask_filter_eq_mask (values s) (values s) v Hnan), length_fmap.
  generalize (values s). intros l. induction l as [|x l IH]; [done|].
  simpl. rewrite !filter_cons. simpl. destruct (decide (x = v)); simpl; by rewrite IH.
Qed.

(** lifelines accepts the sample of every observed value. *)
Lemma group_ok_observed s t d v :
  existsb is_nan (values s) = false → v ∈ values s →
  is_numeric t = true → is_numeric d = true →
  series_len t = series_len s → series_len d = series_len s →
  group_ok s t d v = true.
Proof.
  intros Hnan Hv Ht Hd Hlt Hld. unfold group_ok, fit_ok.
  rewrite !is_numeric_select, Ht, Hd. simpl.
  rewrite !stratum_size by done.
  rewrite (bool_decide_eq_true_2 (_ = _) eq_refl). simpl.
  rewrite !orb_false_r. apply negb_true_iff, bool_decide_eq_false.
  intros Hlen. apply length_zero_iff_nil in Hlen.
  assert (v ∈ filter (λ x, x = v) (values s)) as Hin by (by apply list_elem_of_filter).
  rewrite Hlen in Hin. by apply elem_of_nil in Hin.
Qed.

(** ** The categorical strata *)





(** ** Failures *)

Lemma df_loc_columns_missing df names c :
  c ∈ names → df !! c = None →
  ∃ missing, c ∈ missing ∧ df_loc_columns df names = Raise (KeyError missing).
Proof.
  intros Hc Hnone. unfold df_loc_columns.
  assert (In c (List.filter (λ name, bool_decide (df !! name = None)) names)) as Hin.
  { apply filter_In. split; [by apply list_elem_of_In|]. by apply bool_decide_eq_true. }
  destruct (List.filter _ names) as [|m missing] eqn:Hf; [done|].
  exists (m :: missing). split; [by apply list_elem_of_In|done].
Qed.

Lemma df_loc_columns_present df names :
  all_present df names →
  df_loc_columns df names = Return (filter (λ kv, kv.1 ∈ names) df).
Proof.
  intros Hall. unfold df_loc_columns.
  destruct (List.filter _ names) as [|m missing] eqn:Hf; [done|].
  assert (In m (List.filter (λ name, bool_decide (df !! name = None)) names)) as Hin
    by (rewrite Hf; by left).
  apply filter_In in Hin as [Hin Hnone]. apply bool_decide_eq_true in Hnone.
  destruct (Hall m) as [s Hs]; [by apply list_elem_of_In|]. congruence.
Qed.

Lemma for_enumerate_app {A} (body : Z → A → Py unit) l1 l2 idx w :
  for_enumerate body idx (l1 ++ l2) w
  = bind (for_enumerate body idx l1)
      (λ _, for_enumerate body (idx + Z.of_nat (length l1))%Z l2) w.
Proof.
  revert idx w. induction l1 as [|x l1 IH]; intros idx w; simpl.
  - rewrite bind_eq. unfold ret. by rewrite Z.add_0_r.
  - rewrite !bind_eq. destruct (body idx x w) as [[[]|e] w1]; [|done].
    rewrite IH, bind_eq. by replace (idx + 1 + Z.of_nat (length l1))%Z
      with (idx + Z.pos (Pos.of_succ_nat (length l1)))%Z by lia.
Qed.

(** The loop stops at the first column whose body raises. *)
Lemma for_enumerate_raise {A} (body : Z → A → Py unit) pre x post w w1 e w2 :
  for_enumerate body 0 pre w = (Return tt, w1) →
  body (Z.of_nat (length pre)) x w1 = (Raise e, w2) →
  for_enumerate body 0 (pre ++ x :: post) w = (Raise e, w2).
Proof.
  intros Hpre Hx. rewrite for_enumerate_app, bind_eq, Hpre. simpl.
  by rewrite bind_eq, Z.add_0_l, Hx.
Qed.

Lemma categorical_after_projection cols w :
  all_present (data w) cols →
  Categorical.PlotKaplanMeierEstimatesForCategoricalVariables cols w
  = (let* _ := plt_subplots 2 3 in
     let* _ := for_enumerate Categorical.plot_feature 0 cols in
     let* _ := set_visible (-1) false in
     let* _ := fig_suptitle "Kaplan Meier Estimates for Categorical Variables " in
     plt_show) w.
Proof.
  intros Hall. unfold Categorical.PlotKaplanMeierEstimatesForCategoricalVariables.
  rewrite bind_eq. unfold data_loc_columns. by rewrite df_loc_columns_present.
Qed.

Lemma continuous_after_projection cols w :
  all_present (data w) cols →
  Continuous.PlotKaplanMeierEstimatesForContinuousVariables cols w
  = (let* _ := plt_subplots 3 3 in
     let* _ := for_enumerate Continuous.plot_feature 0 cols in
     let* _ := set_visible (-1) false in
     let* _ := set_visible (-2) false in
     let* _ := fig_suptitle "Kaplan Meier Estimates for Continuous Variables " in
     plt_show) w.
Proof.
  intros Hall. unfold Continuous.PlotKaplanMeierEstimatesForContinuousVariables.
  rewrite bind_eq. unfold data_loc_columns. by rewrite df_loc_columns_present.
Qed.

Lemma projection_fails_first cols w c :
  c ∈ cols → data w !! c = None →
  ∃ missing, c ∈ missing
    ∧ Categorical.PlotKaplanMeierEstimatesForCategoricalVariables cols w
      = (Raise (KeyError missing), w)
    ∧ Continuous.PlotKaplanMeierEstimatesForContinuousVariables cols w
      = (Raise (KeyError missing), w).
Proof.
  intros Hc Hnone.
  destruct (df_loc_columns_missing (data w) cols c Hc Hnone) as (missing & Hm & Hloc).
  exists missing. split; [done|].
  unfold Categorical.PlotKaplanMeierEstimatesForCategoricalVariables,
    Continuous.PlotKaplanMeierEstimatesForContinuousVariables.
  rewrite !bind_eq. unfold data_loc_columns. by rewrite Hloc.
Qed.

(** C9.  Both routines project the dataset onto the listed columns before
    anything else: when a listed column is missing, the call raises
    [KeyError] naming it and leaves the state as it was, with no figure
    created, no fit made and the dataset untouched; when all listed columns
    are present, the projection has no effect on what follows, its result
    is not used. *)
Theorem projection_is_first_action (w : World) (cols : list string) :
  (∀ c, c ∈ cols → data w !! c = None →
     ∃ missing, c ∈ missing
       ∧ Categorical.PlotKaplanMeierEstimatesForCategoricalVariables cols w
         = (Raise (KeyError missing), w)
       ∧ Continuous.PlotKaplanMeierEstimatesForContinuousVariables cols w
         = (Raise (KeyError missing), w))
  ∧ (all_present (data w) cols →
       Categorical.PlotKaplanMeierEstimatesForCategoricalVariables cols w
       = (let* _ := plt_subplots 2 3 in
          let* _ := for_enumerate Categorical.plot_feature 0 cols in
          let* _ := set_visible (-1) false in
          let* _ := fig_suptitle "Kaplan Meier Estimates for Categorical Variables " in
          plt_show) w
       ∧ Continuous.PlotKaplanMeierEstimatesForContinuousVariables cols w
         = (let* _ := plt_subplots 3 3 in
            let* _ := for_enumerate Continuous.plot_feature 0 cols in
            let* _ := set_visible (-1) false in
            let* _ := set_visible (-2) false in
            let* _ := fig_suptitle "Kaplan Meier Estimates for Continuous Variables " in
            plt_show) w).
Proof.
  split.
  - intros c Hc Hnone. by apply projection_fails_first.
  - intros Hall. split;
      [by apply categorical_after_projection|by apply continuous_after_projection].
Qed.

Lemma projection_is_first_action_witness :
  let w := world_of sex_frame in
  ("smoking" ∈ ["sex"; "smoking"] ∧ data w !! "smoking" = None)
  ∧ ∃ missing, "smoking" ∈ missing
      ∧ Categorical.PlotKaplanMeierEstimatesForCategoricalVariables ["sex"; "smoking"] w
        = (Raise (KeyError missing), w)
      ∧ Continuous.PlotKaplanMeierEstimatesForContinuousVariables ["sex"; "smoking"] w
        = (Raise (KeyError missing), w).
Proof.
  intros w.
  assert ("smoking" ∈ ["sex"; "smoking"]) as H1 by (right; left).
  assert (data w !! "smoking" = None) as H2 by (vm_compute; reflexivity).
  split; [split; assumption|].
  exact (proj1 (projection_is_first_action w ["sex"; "smoking"]) "smoking" H1 H2).
Defined.

Lemma plot_feature_beyond_split_points feature w :
  Continuous.plot_feature 7 feature w = (Raise IndexError, w).
Proof. done. Qed.

Lemma pd_cut_strings x xs split : pd_cut (StrS (x :: xs)) split = Raise TypeError.
Proof. done. Qed.

Lemma km_fits_continuous_strings feature split w x xs :
  data w !! feature = Some (StrS (x :: xs)) →
  Continuous.km_fits feature split w = (Raise TypeError, w).
Proof.
  intros Hs. unfold Continuous.km_fits.
  rewrite bind_eq. unfold data_getitem at 1, df_getitem. rewrite Hs.
  by rewrite bind_eq.
Qed.

Lemma categorical_loop_raise pre f post w w1 e w2 :
  all_present (data w) (pre ++ f :: post) →
  for_enumerate Categorical.plot_feature 0 pre (plt_subplots 2 3 w).2 = (Return tt, w1) →
  Categorical.plot_feature (Z.of_nat (length pre)) f w1 = (Raise e, w2) →
  Categorical.PlotKaplanMeierEstimatesForCategoricalVariables (pre ++ f :: post) w
  = (Raise e, w2).
Proof.
  intros Hall Hpre Hf. rewrite categorical_after_projection by done.
  rewrite bind_eq.
  change (plt_subplots 2 3 w) with (Return tt, (plt_subplots 2 3 w).2).
  cbv beta iota. rewrite bind_eq.
  by rewrite (for_enumerate_raise _ pre f post _ w1 e w2 Hpre Hf).
Qed.

Lemma continuous_loop_raise pre f post w w1 e w2 :
  all_present (data w) (pre ++ f :: post) →
  for_enumerate Continuous.plot_feature 0 pre (plt_subplots 3 3 w).2 = (Return tt, w1) →
  Continuous.plot_feature (Z.of_nat (length pre)) f w1 = (Raise e, w2) →
  Continuous.PlotKaplanMeierEstimatesForContinuousVariables (pre ++ f :: post) w
  = (Raise e, w2).
Proof.
  intros Hall Hpre Hf. rewrite continuous_after_projection by done.
  rewrite bind_eq.
  change (plt_subplots 3 3 w) with (Return tt, (plt_subplots 3 3 w).2).
  cbv beta iota. rewrite bind_eq.
  by rewrite (for_enumerate_raise _ pre f post _ w1 e w2 Hpre Hf).
Qed.

Lemma plot_feature_km_fits_raise idx feature split w e w' :
  py_index Continuous.data_split_points idx = Return split →
  Continuous.km_fits feature split w = (Raise e, w') →
  Continuous.plot_feature idx feature w = (Raise e, w').
Proof.
  intros Hsplit Hfits. unfold Continuous.plot_feature.
  rewrite bind_eq. unfold lift at 1. rewrite Hsplit. by rewrite bind_eq, Hfits.
Qed.

(** C7.  Failures are not handled.  A listed column that is missing ends
    either routine with the [KeyError] of the table lookup.  In the loop
    over the columns, the first exception a column raises (from the fits or
    from plotting) is the outcome of the whole call, in the state reached
    at that point: nothing is retried, nothing that follows is run.  A
    column of strings given to the continuous routine ends it with the
    [TypeError] of the binning, and a position beyond the seven bin
    specifications with [IndexError]. *)
Theorem failures_propagate (w : World) (cols : list string) :
  (∀ c, c ∈ cols → data w !! c = None →
     ∃ missing, c ∈ missing
       ∧ Categorical.PlotKaplanMeierEstimatesForCategoricalVariables cols w
         = (Raise (KeyError missing), w)
       ∧ Continuous.PlotKaplanMeierEstimatesForContinuousVariables cols w
         = (Raise (KeyError missing), w))
  ∧ (∀ pre f post w1 e w2,
       cols = pre ++ f :: post → all_present (data w) cols →
       for_enumerate Categorical.plot_feature 0 pre (plt_subplots 2 3 w).2
       = (Return tt, w1) →
       Categorical.plot_feature (Z.of_nat (length pre)) f w1 = (Raise e, w2) →
       Categorical.PlotKaplanMeierEstimatesForCategoricalVariables cols w
       = (Raise e, w2))
  ∧ (∀ pre f post w1 e w2,
       cols = pre ++ f :: post → all_present (data w) cols →
       for_enumerate Continuous.plot_feature 0 pre (plt_subplots 3 3 w).2
       = (Return tt, w1) →
       Continuous.plot_feature (Z.of_nat (length pre)) f w1 = (Raise e, w2) →
       Continuous.PlotKaplanMeierEstimatesForContinuousVariables cols w
       = (Raise e, w2))
  ∧ (∀ f rest x xs,
       cols = f :: rest → all_present (data w) cols →
       data w !! f = Some (StrS (x :: xs)) →
       Continuous.PlotKaplanMeierEstimatesForContinuousVariables cols w
       = (Raise TypeError, (plt_subplots 3 3 w).2))
  ∧ (∀ f w1, Continuous.plot_feature 7 f w1 = (Raise IndexError, w1)).
Proof.
  split; [intros c Hc Hnone; by apply projection_fails_first|].
  split; [intros pre f post w1 e w2 -> Hall Hpre Hf;
          by apply (categorical_loop_raise pre f post w w1 e w2)|].
  split; [intros pre f post w1 e w2 -> Hall Hpre Hf;
          by apply (continuous_loop_raise pre f post w w1 e w2)|].
  split; [|intros; apply plot_feature_beyond_split_points].
  intros f rest x xs -> Hall Hs.
  apply (continuous_loop_raise [] f rest w (plt_subplots 3 3 w).2 TypeError);
    [done|done|].
  apply (plot_feature_km_fits_raise _ _ (SplitEdges [Qc_of 30 1; Qc_of 60 1; Qc_of 80 1; Qc_of 100 1]));
    [done|].
  by apply (km_fits_continuous_strings _ _ _ x xs).
Qed.

Lemma failures_propagate_witness :
  let w := world_of names_frame in
  (all_present (data w) ["name"] ∧ data w !! "name" = Some (StrS ["ann"; "bob"]))
  ∧ Continuous.PlotKaplanMeierEstimatesForContinuousVariables ["name"] w
    = (Raise TypeError, (plt_subplots 3 3 w).2).
Proof.
  intros w.
  assert (all_present (data w) ["name"]) as H1.
  { intros c Hc. apply list_elem_of_singleton in Hc as ->. by eexists. }
  assert (data w !! "name" = Some (StrS ["ann"; "bob"])) as H2 by (vm_compute; reflexivity).
  split; [split; assumption|].
  exact (proj1 (proj2 (proj2 (proj2 (failures_propagate w ["name"]))))
           "name" [] "ann" ["bob"] eq_refl H1 H2).
Defined.

(** ** The capacity of the continuous routine *)



Lemma heart_frame_columns c :
  c ∈ continuous_features ++ categorical_features ++ ["DEATH_EVENT"] →
  is_Some (heart_frame !! c).
Proof.
  intros Hc. unfold continuous_features, categorical_features in Hc. simpl in Hc.
  repeat (apply elem_of_cons in Hc as [->|Hc];
          [apply (bool_decide_unpack _); vm_compute; exact I|]).
  by apply elem_of_nil in Hc.
Qed.


(** ** The scratch column *)

Lemma string_app_length (a b : string) :
  String.length (a +:+ b) = (String.length a + String.length b)%nat.
Proof. induction a as [|c a IH]; simpl; [done|]. by rewrite IH. Qed.

(** The scratch column is neither of the two fixed columns. *)
Lemma group_not_time col : col +:+ "_group" ≠ "time".
Proof.
  intros H. apply (f_equal String.length) in H.
  rewrite string_app_length in H. simpl in H. lia.
Qed.

Lemma group_not_death_event col : col +:+ "_group" ≠ "DEATH_EVENT".
Proof.
  intros H. pose proof (f_equal String.length H) as Hlen.
  rewrite string_app_length in Hlen. simpl in Hlen.
  destruct col as [|c1 [|c2 [|c3 [|c4 [|c5 [|c6 col]]]]]]; simpl in Hlen; try lia.
  simpl in H. by inversion H.
Qed.

Lemma has_schema_delete_group df t d col :
  has_schema df t d → has_schema (delete (col +:+ "_group") df) t d.
Proof.
  intros [Ht Hd]. split; rewrite lookup_delete_ne;
    auto using group_not_time, group_not_death_event.
Qed.

(** Every outcome of [km_fits] on a dataset with the two fixed columns:
    the dataset is as before, when the call failed before writing the
    scratch column, or it is the dataset without the scratch column. *)
Lemma km_fits_continuous_outcome col split w t d o w' :
  has_schema (data w) t d →
  Continuous.km_fits col split w = (o, w') →
  fig w' = fig w ∧ shown w' = shown w
  ∧ ((data w' = data w ∧ ∃ e, o = Raise e)
     ∨ (data w' = delete (col +:+ "_group") (data w)
        ∧ ∃ s bins range_hue,
            data w !! col = Some s ∧ pd_cut s split = Return bins
            ∧ np_unique bins = Return range_hue
            ∧ ((o = Return (strata bins t d continuous_label range_hue)
                ∧ fitted w' = fitted w ++ strata bins t d continuous_label range_hue
                ∧ forallb (group_ok bins t d) range_hue = true)
               ∨ (o = Raise ValueError
                  ∧ forallb (group_ok bins t d) range_hue = false)))).
Proof.
  intros [Ht Hd] Hrun.
  destruct (data w !! col) as [s|] eqn:Hs.
  2:{ unfold Continuous.km_fits in Hrun. rewrite bind_eq in Hrun.
      unfold data_getitem at 1, df_getitem in Hrun. rewrite Hs in Hrun.
      inversion Hrun; subst. repeat split; try done. left. eauto. }
  destruct (pd_cut s split) as [bins|e] eqn:Hcut.
  2:{ unfold Continuous.km_fits in Hrun. rewrite bind_eq in Hrun.
      unfold data_getitem at 1, df_getitem in Hrun. rewrite Hs in Hrun.
      rewrite bind_eq in Hrun. unfold lift at 1 in Hrun. rewrite Hcut in Hrun.
      inversion Hrun; subst. repeat split; try done. left. eauto. }
  destruct (np_unique bins) as [range_hue|e] eqn:Huniq.
  2:{ unfold Continuous.km_fits in Hrun. rewrite bind_eq in Hrun.
      unfold data_getitem at 1, df_getitem in Hrun. rewrite Hs in Hrun.
      rewrite bind_eq in Hrun. unfold lift at 1 in Hrun. rewrite Hcut in Hrun.
      rewrite bind_eq in Hrun. unfold lift at 1 in Hrun. rewrite Huniq in Hrun.
      inversion Hrun; subst. repeat split; try done. left. eauto. }
  destruct (km_fits_continuous_run col split w s bins range_hue t d
              Hs Hcut Huniq Ht Hd (group_not_time col) (group_not_death_event col))
    as [[Hret Hok]|[[done_fits Hraise] Hbad]].
  - rewrite Hret in Hrun. inversion Hrun; subst. simpl.
    repeat split; try done. right. split; [done|].
    exists s, bins, range_hue. repeat split; try done. left. by repeat split.
  - rewrite Hraise in Hrun. inversion Hrun; subst. simpl.
    repeat split; try done. right. split; [done|].
    exists s, bins, range_hue. repeat split; try done. right. by split.
Qed.

(** A predicate on the dataset alone is kept by every step on the figure
    and by the estimator. *)
Section data_only.
Context (P : DataFrame → Prop).
Let I : World → Prop := λ w, P (data w).

Lemma data_only_update_axes k g : preserves I (update_axes k g).
Proof. intros w o w' HI H. by inversion H; subst. Qed.

Lemma data_only_kmf_plot kmf title idx : preserves I (kmf_plot kmf title idx).
Proof.
  apply preserves_bind; [apply preserves_axes_position|].
  intros k. apply data_only_update_axes.
Qed.

Lemma data_only_set_visible idx b : preserves I (set_visible idx b).
Proof.
  apply preserves_bind; [apply preserves_axes_position|].
  intros k. apply data_only_update_axes.
Qed.

Lemma data_only_plots feature idx fits i :
  preserves I (comprehension (λ _ x, kmf_plot x feature idx) i fits).
Proof. apply preserves_comprehension. intros. apply data_only_kmf_plot. Qed.

Lemma data_only_subplots r c : preserves I (plt_subplots r c).
Proof. intros w o w' HI H. by inversion H; subst. Qed.

Lemma data_only_suptitle title : preserves I (fig_suptitle title).
Proof. intros w o w' HI H. by inversion H; subst. Qed.

Lemma data_only_show : preserves I plt_show.
Proof. intros w o w' HI H. by inversion H; subst. Qed.

Lemma data_only_loc names : preserves I (data_loc_columns names).
Proof. intros w o w' HI H. by inversion H; subst. Qed.
End data_only.

(** What one turn of the loop of the continuous routine does to the
    dataset. *)
Lemma plot_feature_continuous_data idx feature w t d o w' :
  has_schema (data w) t d →
  Continuous.plot_feature idx feature w = (o, w') →
  (data w' = data w ∧ ∃ e, o = Raise e)
  ∨ data w' = delete (feature +:+ "_group") (data w).
Proof.
  intros Hschema Hrun. unfold Continuous.plot_feature in Hrun.
  apply bind_inv in Hrun as [(split & w1 & Hsplit & Hrun)|(e & Hsplit & ->)].
  2:{ left. unfold lift in Hsplit. inversion Hsplit; subst. eauto. }
  assert (w1 = w) as -> by (unfold lift in Hsplit; by inversion Hsplit).
  apply bind_inv in Hrun as [(fits & w2 & Hfits & Hrun)|(e & Hfits & ->)].
  2:{ destruct (km_fits_continuous_outcome _ _ _ _ _ _ _ Hschema Hfits)
        as (_ & _ & [[Hdata _]|[Hdata _]]); [left|right]; eauto. }
  destruct (km_fits_continuous_outcome _ _ _ _ _ _ _ Hschema Hfits)
    as (_ & _ & [[_ [e He]]|[Hdata _]]); [done|].
  right. rewrite <-Hdata.
  apply bind_inv in Hrun as [(u & w3 & Hplots & Hrun)|(e & Hplots & ->)].
  - inversion Hrun; subst.
    by apply (data_only_plots (λ df, df = data w2) _ _ _ _ w2 _ _ eq_refl Hplots).
  - by apply (data_only_plots (λ df, df = data w2) _ _ _ _ w2 _ _ eq_refl Hplots).
Qed.

Lemma plot_feature_continuous_return idx feature w t d w' :
  has_schema (data w) t d →
  Continuous.plot_feature idx feature w = (Return tt, w') →
  data w' = delete (feature +:+ "_group") (data w).
Proof.
  intros Hschema Hrun.
  by destruct (plot_feature_continuous_data _ _ _ _ _ _ _ Hschema Hrun) as [[_ [e ?]]|?].
Qed.

Lemma shrunk_plot_feature df0 t d idx feature :
  preserves (shrunk_from df0 t d) (Continuous.plot_feature idx feature).
Proof.
  intros w o w' [Hsub Hschema] Hrun.
  unfold shrunk_from.
  destruct (plot_feature_continuous_data _ _ _ _ _ _ _ Hschema Hrun)
    as [[-> _]| ->]; [done|]. split.
  - etrans; [apply delete_subseteq|done].
  - by apply has_schema_delete_group.
Qed.

Lemma for_enumerate_each {A} (body : Z → A → Py unit)
    (I : World → Prop) (Q : A → World → Prop) :
  (∀ i x, preserves I (body i x)) →
  (∀ i x w w', I w → body i x w = (Return tt, w') → Q x w') →
  (∀ i x y w o w', I w → Q y w → body i x w = (o, w') → Q y w') →
  ∀ l idx w w', I w → for_enumerate body idx l w = (Return tt, w') →
  ∀ x, x ∈ l → Q x w'.
Proof.
  intros HI Hnow Hlater l. induction l as [|y l IH]; intros idx w w' Hw Hrun x Hx.
  - by apply elem_of_nil in Hx.
  - simpl in Hrun. apply bind_inv_return in Hrun as ([] & w1 & Hy & Hrun).
    assert (I w1) as Hw1 by (by apply (HI idx y w (Return tt) w1)).
    apply elem_of_cons in Hx as [->|Hx]; [|by apply (IH (idx + 1)%Z w1 w')].
    assert (Q y w1) as Hq by (by apply (Hnow idx y w w1)).
    clear IH Hy Hw. revert w1 Hw1 Hq Hrun.
    generalize (idx + 1)%Z. induction l as [|z l IH]; intros j w1 Hw1 Hq Hrun.
    + simpl in Hrun. by inversion Hrun; subst.
    + simpl in Hrun. apply bind_inv_return in Hrun as ([] & w2 & Hz & Hrun).
      apply (IH (j + 1)%Z w2); [by apply (HI j z w1 (Return tt) w2)| |done].
      by apply (Hlater j z y w1 (Return tt) w2).
Qed.

Lemma continuous_preserves_shrunk df0 t d cols :
  preserves (shrunk_from df0 t d)
    (Continuous.PlotKaplanMeierEstimatesForContinuousVariables cols).
Proof.
  unfold Continuous.PlotKaplanMeierEstimatesForContinuousVariables.
  pose (P := λ df : DataFrame, df ⊆ df0 ∧ has_schema df t d).
  apply preserves_bind; [apply (data_only_loc P)|]; intros _.
  apply preserves_bind; [apply (data_only_subplots P)|]; intros _.
  apply preserves_bind;
    [apply preserves_for_enumerate; intros; apply shrunk_plot_feature|]; intros _.
  apply preserves_bind; [apply (data_only_set_visible P)|]; intros _.
  apply preserves_bind; [apply (data_only_set_visible P)|]; intros _.
  apply preserves_bind; [apply (data_only_suptitle P)|]; intros _.
  apply (data_only_show P).
Qed.

Lemma continuous_return_no_group cols w t d w' :
  has_schema (data w) t d →
  Continuous.PlotKaplanMeierEstimatesForContinuousVariables cols w = (Return tt, w') →
  ∀ c, c ∈ cols → data w' !! (c +:+ "_group") = None.
Proof.
  intros Hschema Hrun c Hc.
  unfold Continuous.PlotKaplanMeierEstimatesForContinuousVariables in Hrun.
  bind_inv_return Hrun proj w1 Hproj.
  assert (w1 = w) as -> by (unfold data_loc_columns in Hproj; by inversion Hproj).
  bind_inv_return Hrun u w2 Hsub.
  assert (shrunk_from (data w) t d w2) as Hw2
    by (inversion Hsub; subst; by split).
  bind_inv_return Hrun u1 w3 Hloop. destruct u1.
  assert (data w3 !! (c +:+ "_group") = None) as Hnone.
  { apply (for_enumerate_each Continuous.plot_feature (shrunk_from (data w) t d)
             (λ c w, data w !! (c +:+ "_group") = None)) with (4 := Hw2) (5 := Hloop);
      [intros; apply shrunk_plot_feature | | |done].
    - intros i x wa wb [_ Ha] Hx.
      rewrite (plot_feature_continuous_return _ _ _ _ _ _ Ha Hx).
      apply lookup_delete_eq.
    - intros i x y wa o wb [_ Ha] Hy Hx.
      destruct (plot_feature_continuous_data _ _ _ _ _ _ _ Ha Hx) as [[-> _]| ->];
        [done|].
      eapply lookup_weaken_None; [exact Hy|apply delete_subseteq]. }
  pose (P := λ df : DataFrame, df !! (c +:+ "_group") = None).
  bind_inv_return Hrun u2 w4 Hhide.
  apply (data_only_set_visible P _ _ _ _ _ Hnone) in Hhide.
  bind_inv_return Hrun u3 w5 Hhide2.
  apply (data_only_set_visible P _ _ _ _ _ Hhide) in Hhide2.
  bind_inv_return Hrun u4 w6 Htitle.
  apply (data_only_suptitle P _ _ _ _ Hhide2) in Htitle.
  by apply (data_only_show P _ _ _ Htitle) in Hrun.
Qed.

(** Without the [time] column, reading the first subgroup fails while the
    scratch column is in the dataset, and nothing removes it. *)
Lemma km_fits_continuous_leak col split w s bins v range_hue :
  data w !! col = Some s → pd_cut s split = Return bins →
  np_unique bins = Return (v :: range_hue) →
  data w !! "time" = None →
  Continuous.km_fits col split w
  = (Raise (KeyError ["time"]),
     mkWorld (<[col +:+ "_group" := bins]> (data w)) (fig w) (fitted w) (shown w)).
Proof.
  intros Hs Hcut Huniq Ht. unfold Continuous.km_fits.
  rewrite bind_eq. unfold data_getitem at 1, df_getitem. rewrite Hs.
  rewrite bind_eq. unfold lift at 1. rewrite Hcut.
  rewrite bind_eq. unfold lift at 1. rewrite Huniq.
  rewrite bind_eq. unfold data_getitem at 1, df_getitem. rewrite Hs.
  rewrite bind_eq. unfold lift at 1. rewrite Hcut.
  rewrite bind_eq. unfold data_setitem at 1, df_setitem.
  rewrite bind_eq, comprehension_cons, bind_eq.
  rewrite (rows_where_eq_missing _ _ _ _ bins); [done|apply lookup_insert_eq|].
  simpl. rewrite lookup_insert_ne; [done|apply group_not_time].
Qed.

(** C4, as stated, fails: on a dataset without a [time] column the call
    ends with [KeyError] and the scratch column ["age_group"], which the
    dataset did not have, is still there. *)
Lemma scratch_column_left_behind :
  let r := Continuous.PlotKaplanMeierEstimatesForContinuousVariables ["age"]
             (world_of untimed_frame) in
  untimed_frame !! "age_group" = None
  ∧ r.1 = Raise (KeyError ["time"])
  ∧ (λ s, str <$> values s) <$> data r.2 !! "age_group"
    = Some ["(30.0, 60.0]"; "(60.0, 80.0]"].
Proof. vm_compute. done. Qed.

(** C4, amended.  On a dataset that holds the [time] and [DEATH_EVENT]
    columns, after every call of the continuous routine, whether it returns
    or raises, every column of the dataset is one of its original columns
    with its original contents, so no scratch column is left; after a
    normal return the dataset has no column [c ++ "_group"] for any listed
    column [c].  There is no cleanup on failure: on a dataset without
    [time], [km_fits] ends with the [KeyError] of reading the first
    subgroup and the scratch column stays in the dataset. *)
Theorem scratch_column_cleanup (w : World) :
  (∀ cols t d o w',
     has_schema (data w) t d →
     Continuous.PlotKaplanMeierEstimatesForContinuousVariables cols w = (o, w') →
     data w' ⊆ data w
     ∧ (o = Return tt → ∀ c, c ∈ cols → data w' !! (c +:+ "_group") = None))
  ∧ (∀ col split s bins v range_hue,
       data w !! col = Some s → pd_cut s split = Return bins →
       np_unique bins = Return (v :: range_hue) →
       data w !! "time" = None →
       Continuous.km_fits col split w
       = (Raise (KeyError ["time"]),
          mkWorld (<[col +:+ "_group" := bins]> (data w)) (fig w) (fitted w) (shown w))).
Proof.
  split.
  - intros cols t d o w' Hschema Hrun. split.
    + by apply (continuous_preserves_shrunk (data w) t d cols w o w').
    + intros -> c Hc. by apply (continuous_return_no_group cols w t d w').
  - intros. by apply (km_fits_continuous_leak _ _ _ s _ v range_hue).
Qed.

Lemma scratch_column_cleanup_witness :
  let w := world_of heart_frame in
  let r := Continuous.PlotKaplanMeierEstimatesForContinuousVariables
             continuous_features w in
  has_schema (data w) (IntS [4; 6; 7; 7; 8; 8]%Z) (IntS [1; 1; 1; 0; 1; 0]%Z)
  ∧ data r.2 ⊆ data w
  ∧ (r.1 = Return tt →
     ∀ c, c ∈ continuous_features → data r.2 !! (c +:+ "_group") = None).
Proof.
  intros w r.
  assert (has_schema (data w) (IntS [4; 6; 7; 7; 8; 8]%Z) (IntS [1; 1; 1; 0; 1; 0]%Z))
    as H1 by (split; vm_compute; reflexivity).
  split; [exact H1|].
  exact (proj1 (scratch_column_cleanup w) continuous_features _ _ r.1 r.2 H1
           (surjective_pairing r)).
Defined.

(** ** What ends up on each panel *)

Lemma axes_position_nat k w cs :
  panel_curves w k = Some cs → axes_position (Z.of_nat k) w = (Return k, w).
Proof.
  unfold panel_curves, axes_position. destruct (fig w) as [f|]; [|done].
  intros Hk. rewrite py_index_nat.
  destruct (axes f !! k) as [a|] eqn:Ha; [|done].
  by rewrite lookup_seq_lt by (by apply lookup_lt_Some in Ha).
Qed.

Lemma kmf_plot_run kmf title k w cs :
  panel_curves w k = Some cs →
  ∃ w', kmf_plot kmf title (Z.of_nat k) w = (Return tt, w')
    ∧ data w' = data w ∧ fitted w' = fitted w ∧ shown w' = shown w
    ∧ panel_curves w' k = Some (cs ++ [kmf])
    ∧ ∀ j, j ≠ k → panel_curves w' j = panel_curves w j.
Proof.
  intros Hk. unfold kmf_plot. rewrite bind_eq, (axes_position_nat k w cs Hk).
  eexists. split; [done|]. simpl. repeat split; try done.
  - unfold panel_curves in *. simpl. destruct (fig w) as [f|]; [|done]. simpl.
    rewrite list_lookup_alter_eq. destruct (axes f !! k) as [a|]; [|done].
    simpl in *. by inversion Hk.
  - intros j Hj. unfold panel_curves. simpl. destruct (fig w) as [f|]; [|done].
    simpl. by rewrite list_lookup_alter_ne.
Qed.

Lemma plots_run feature k fits : ∀ idx w cs,
  panel_curves w k = Some cs →
  ∃ us w', comprehension (λ _ x, kmf_plot x feature (Z.of_nat k)) idx fits w
           = (Return us, w')
    ∧ data w' = data w ∧ fitted w' = fitted w ∧ shown w' = shown w
    ∧ panel_curves w' k = Some (cs ++ fits)
    ∧ ∀ j, j ≠ k → panel_curves w' j = panel_curves w j.
Proof.
  induction fits as [|kmf fits IH]; intros idx w cs Hk.
  - exists [], w. rewrite app_nil_r. by repeat split.
  - destruct (kmf_plot_run kmf feature k w cs Hk)
      as (w1 & Hrun1 & Hd1 & Hf1 & Hs1 & Hk1 & Ho1).
    destruct (IH (idx + 1)%Z w1 _ Hk1) as (us & w2 & Hrun2 & Hd2 & Hf2 & Hs2 & Hk2 & Ho2).
    exists (tt :: us), w2. rewrite comprehension_cons, bind_eq, Hrun1, bind_eq, Hrun2.
    split; [done|]. split; [congruence|]. split; [congruence|]. split; [congruence|].
    split; [by rewrite Hk2, <-app_assoc|].
    intros j Hj. by rewrite Ho2, Ho1.
Qed.

Lemma panel_curves_fig w w' i : fig w' = fig w → panel_curves w' i = panel_curves w i.
Proof. unfold panel_curves. by intros ->. Qed.

(** One turn of the loop of the continuous routine that ends normally:
    the column is cut with the bin specification at its position, and the
    fits of its bins are added to the panel at that position. *)
Lemma plot_feature_continuous_step k feature w t d w' cs :
  has_schema (data w) t d → panel_curves w k = Some cs →
  Continuous.plot_feature (Z.of_nat k) feature w = (Return tt, w') →
  ∃ split s bins range_hue,
    Continuous.data_split_points !! k = Some split
    ∧ data w !! feature = Some s ∧ pd_cut s split = Return bins
    ∧ np_unique bins = Return range_hue
    ∧ forallb (group_ok bins t d) range_hue = true
    ∧ panel_curves w' k = Some (cs ++ strata bins t d continuous_label range_hue)
    ∧ (∀ j, j ≠ k → panel_curves w' j = panel_curves w j)
    ∧ fitted w' = fitted w ++ strata bins t d continuous_label range_hue.
Proof.
  intros Hschema Hk Hrun. unfold Continuous.plot_feature in Hrun.
  bind_inv_return Hrun sp w1 Hsplit.
  unfold lift in Hsplit. rewrite py_index_nat in Hsplit.
  destruct (Continuous.data_split_points !! k) as [sp'|] eqn:Hsp; [|done].
  inversion Hsplit; subst sp' w1; clear Hsplit.
  bind_inv_return Hrun fits w2 Hfits.
  destruct (km_fits_continuous_outcome _ _ _ _ _ _ _ Hschema Hfits)
    as (Hfig & Hshown & [[_ [e He]]|[Hdata (s & bins & range_hue & Hs & Hcut & Huniq & Hout)]]);
    [done|].
  destruct Hout as [(Ho & Hfitted & Hok)|[Ho _]]; [|done].
  inversion Ho; subst fits; clear Ho.
  bind_inv_return Hrun us w3 Hplots. inversion Hrun; subst w3; clear Hrun.
  assert (panel_curves w2 k = Some cs) as Hk2 by (by rewrite (panel_curves_fig w)).
  destruct (plots_run feature k (strata bins t d continuous_label range_hue) 0 w2 cs Hk2)
    as (us' & w3 & Hrun3 & Hd3 & Hf3 & Hs3 & Hk3 & Ho3).
  rewrite Hrun3 in Hplots. inversion Hplots; subst us' w3; clear Hplots.
  exists sp, s, bins, range_hue. repeat split; try done.
  - intros j Hj. rewrite (Ho3 j Hj). by apply panel_curves_fig.
  - by rewrite Hf3.
Qed.

Lemma for_enumerate_indexed {A} (body : Z → A → Py unit) (Inv : nat → World → Prop)
    (l : list A) :
  (∀ k x w w', Inv k w → l !! k = Some x →
     body (Z.of_nat k) x w = (Return tt, w') → Inv (S k) w') →
  ∀ w w', Inv 0%nat w → for_enumerate body 0 l w = (Return tt, w') →
  Inv (length l) w'.
Proof.
  intros Hstep.
  assert (∀ l2 l1 w w', l = l1 ++ l2 → Inv (length l1) w →
            for_enumerate body (Z.of_nat (length l1)) l2 w = (Return tt, w') →
            Inv (length l) w') as Hgen.
  { induction l2 as [|x l2 IH]; intros l1 w w' Hl Hinv Hrun.
    - simpl in Hrun. inversion Hrun; subst. by rewrite app_nil_r.
    - simpl in Hrun. apply bind_inv_return in Hrun as ([] & w1 & Hx & Hrun).
      apply (IH (l1 ++ [x]) w1 w').
      + by rewrite <-app_assoc.
      + rewrite length_app. simpl. rewrite Nat.add_1_r.
        apply (Hstep (length l1) x w w1 Hinv); [|done].
        rewrite Hl. by rewrite lookup_app_r, Nat.sub_diag.
      + rewrite length_app. simpl.
        by replace (Z.of_nat (length l1 + 1)) with (Z.of_nat (length l1) + 1)%Z by lia. }
  intros w w' Hinv Hrun. by apply (Hgen l [] w w').
Qed.

Lemma plot_feature_continuous_position k feature w w' :
  Continuous.plot_feature (Z.of_nat k) feature w = (Return tt, w') → (k < 7)%nat.
Proof.
  unfold Continuous.plot_feature. intros Hrun.
  bind_inv_return Hrun sp w1 Hsplit.
  unfold lift in Hsplit. rewrite py_index_nat in Hsplit.
  destruct (Continuous.data_split_points !! k) as [sp'|] eqn:Hsp; [|done].
  by apply lookup_lt_Some in Hsp.
Qed.

Lemma panel_curves_update_axes k g w o w' i :
  (∀ a, ax_curves (g a) = ax_curves a) →
  update_axes k g w = (o, w') → panel_curves w' i = panel_curves w i.
Proof.
  intros Hg H. inversion H; subst; clear H. unfold panel_curves. simpl.
  destruct (fig w) as [f|]; [|done]. simpl.
  destruct (decide (i = k)) as [->|Hne].
  - rewrite list_lookup_alter_eq. destruct (axes f !! k); simpl; by rewrite ?Hg.
  - by rewrite list_lookup_alter_ne.
Qed.

Lemma panel_curves_set_visible idx b w o w' i :
  set_visible idx b w = (o, w') → panel_curves w' i = panel_curves w i.
Proof.
  unfold set_visible. intros H.
  apply bind_inv in H as [(k & w1 & Hpos & H)|(e & Hpos & _)].
  - apply (preserves_axes_position (λ w1, w1 = w) idx w _ w1 eq_refl) in Hpos as ->.
    by apply (panel_curves_update_axes k _ w o w' i) in H.
  - by apply (preserves_axes_position (λ w1, w1 = w) idx w _ w' eq_refl) in Hpos as ->.
Qed.







(** ** The grid and its hidden panels *)

Lemma fig_shape_suptitle r c title : preserves (fig_shape r c) (fig_suptitle title).
Proof.
  intros w o w' (f & Hf & Hr & Hc & Hlen) H. inversion H; subst; clear H.
  rewrite Hf. by eexists.
Qed.

Lemma fig_shape_show r c : preserves (fig_shape r c) plt_show.
Proof. intros w o w' Hw H. by inversion H; subst. Qed.

Lemma categorical_grid cols w o w' :
  all_present (data w) cols →
  Categorical.PlotKaplanMeierEstimatesForCategoricalVariables cols w = (o, w') →
  fig_shape 2 3 w'.
Proof.
  intros Hall. rewrite categorical_after_projection by done.
  rewrite bind_eq.
  change (plt_subplots 2 3 w) with (Return tt, (plt_subplots 2 3 w).2). cbv beta iota.
  apply preserves_bind;
    [apply preserves_for_enumerate; intros; apply fig_shape_plot_feature_categorical|
     |apply fig_shape_subplots]; intros _.
  apply preserves_bind; [apply fig_shape_set_visible|]; intros _.
  apply preserves_bind; [apply fig_shape_suptitle|]; intros _.
  apply fig_shape_show.
Qed.

Lemma continuous_grid cols w o w' :
  all_present (data w) cols →
  Continuous.PlotKaplanMeierEstimatesForContinuousVariables cols w = (o, w') →
  fig_shape 3 3 w'.
Proof.
  intros Hall. rewrite continuous_after_projection by done.
  rewrite bind_eq.
  change (plt_subplots 3 3 w) with (Return tt, (plt_subplots 3 3 w).2). cbv beta iota.
  apply preserves_bind;
    [apply preserves_for_enumerate; intros; apply fig_shape_plot_feature_continuous|
     |apply fig_shape_subplots]; intros _.
  apply preserves_bind; [apply fig_shape_set_visible|]; intros _.
  apply preserves_bind; [apply fig_shape_set_visible|]; intros _.
  apply preserves_bind; [apply fig_shape_suptitle|]; intros _.
  apply fig_shape_show.
Qed.

(** C5, as stated, fails: with six categorical columns the call returns
    with the sixth panel holding two curves and hidden, and with seven
    continuous columns the last two panels are hidden as well. *)
Lemma panels_hidden_at_capacity :
  let six := categorical_features ++ ["DEATH_EVENT"] in
  let r := Categorical.PlotKaplanMeierEstimatesForCategoricalVariables six
             (world_of heart_frame) in
  let r' := Continuous.PlotKaplanMeierEstimatesForContinuousVariables
              continuous_features (world_of heart_frame) in
  (length six = 6%nat ∧ r.1 = Return tt
   ∧ panel_labels r.2 5 = Some ["DEATH_EVENT: 0"; "DEATH_EVENT: 1"]
   ∧ panel_visible r.2 5 = Some false)
  ∧ (length continuous_features = 7%nat ∧ r'.1 = Return tt
     ∧ panel_visible r'.2 7 = Some false ∧ panel_visible r'.2 8 = Some false).
Proof. vm_compute. done. Qed.

(** C5, amended.  When the listed columns are present, the figure of the
    categorical routine is a 2x3 grid of exactly 6 panels and that of the
    continuous routine a 3x3 grid of exactly 9 panels, whatever the outcome
    of the call.  On every call that returns normally the last panel of
    the categorical figure is hidden, and so are the last two panels of the
    continuous figure, whatever the number of columns: the panels are
    hidden unconditionally, also when the sixth categorical column has
    been plotted on the last panel. *)
Theorem grid_and_hidden_panels (w : World) (cols : list string) :
  (∀ o w', all_present (data w) cols →
     Categorical.PlotKaplanMeierEstimatesForCategoricalVariables cols w = (o, w') →
     ∃ f, fig w' = Some f ∧ nrows f = 2%nat ∧ ncols f = 3%nat
          ∧ length (axes f) = 6%nat)
  ∧ (∀ o w', all_present (data w) cols →
       Continuous.PlotKaplanMeierEstimatesForContinuousVariables cols w = (o, w') →
       ∃ f, fig w' = Some f ∧ nrows f = 3%nat ∧ ncols f = 3%nat
            ∧ length (axes f) = 9%nat)
  ∧ (∀ w',
       Categorical.PlotKaplanMeierEstimatesForCategoricalVariables cols w
       = (Return tt, w') →
       panel_visible w' 5 = Some false)
  ∧ (∀ w',
       Continuous.PlotKaplanMeierEstimatesForContinuousVariables cols w
       = (Return tt, w') →
       panel_visible w' 7 = Some false ∧ panel_visible w' 8 = Some false).
Proof.
  split; [|split; [|split]].
  - intros o w' Hall Hrun. by apply (categorical_grid cols w o w').
  - intros o w' Hall Hrun. by apply (continuous_grid cols w o w').
  - intros w' Hrun.
    destruct (categorical_figure_on_return cols w w' Hrun) as (f & Hf & _ & _ & _ & Hv).
    unfold panel_visible. by rewrite Hf.
  - intros w' Hrun.
    destruct (continuous_figure_on_return cols w w' Hrun)
      as (f & Hf & _ & _ & _ & Hv8 & Hv7).
    unfold panel_visible. by rewrite Hf.
Qed.

Lemma grid_and_hidden_panels_witness :
  let w := world_of heart_frame in
  let r := Categorical.PlotKaplanMeierEstimatesForCategoricalVariables
             categorical_features w in
  r = (Return tt, r.2) ∧ panel_visible r.2 5 = Some false.
Proof.
  intros w r.
  assert (r = (Return tt, r.2)) as H1 by (vm_compute; reflexivity).
  split; [exact H1|].
  exact (proj1 (proj2 (proj2 (grid_and_hidden_panels w categorical_features))) r.2 H1).
Defined.

(** ** Labels of the bins *)










(** ** The bins that get a curve *)

Lemma pd_cut_categorical s split bins :
  pd_cut s split = Return bins →
  ∃ xs edges,
    numeric_values s = Some xs
    ∧ bins = CatS (format_labels edges 3) (bin_code edges <$> xs)
    ∧ NoDup (format_labels edges 3)
    ∧ match split with
      | SplitEdges e => edges = e ∧ nondecreasing e = true
      | SplitCount n => nbins_to_bins xs n = Return edges
      end.
Proof.
  unfold pd_cut. destruct (numeric_values s) as [xs|]; [|done].
  assert (∀ edges, bins_to_cuts xs edges = Return bins →
            bins = CatS (format_labels edges 3) (bin_code edges <$> xs)
            ∧ NoDup (format_labels edges 3)) as Hcuts.
  { intros edges. unfold bins_to_cuts. destruct (_ && _); [done|].
    destruct (bool_decide (NoDup (format_labels edges 3))) eqn:Hnd; [|done].
    intros [= <-]. split; [done|]. by apply bool_decide_eq_true in Hnd. }
  destruct split as [e|n].
  - destruct (nondecreasing e) eqn:Hmono; [|done]. intros Hb.
    destruct (Hcuts e Hb) as [-> Hnd]. by exists xs, e.
  - destruct (nbins_to_bins xs n) as [edges|] eqn:Hn; [|done]. intros Hb.
    destruct (Hcuts edges Hb) as [-> Hnd]. by exists xs, edges.
Qed.

Lemma mask_filter_none {A} (keys : list cell) (l : list A) v :
  (∀ x, x ∈ keys → cell_eqb x v = false) →
  mask_filter ((λ x, cell_eqb x v) <$> keys) l = [].
Proof.
  revert l. induction keys as [|x keys IH]; intros [|y l] Hk; simpl; try done.
  rewrite (Hk x ltac:(left)). apply IH. intros z Hz. apply Hk. by right.
Qed.

(** lifelines rejects the empty sample of a value that no row has, the
    missing value among them. *)
Lemma group_ok_unobserved bins t d v :
  (∀ x, x ∈ values bins → cell_eqb x v = false) → group_ok bins t d v = false.
Proof.
  intros Hv. unfold group_ok, fit_ok, series_len.
  rewrite values_select. unfold eq_mask. by rewrite (mask_filter_none _ _ v Hv).
Qed.

Lemma group_ok_observed_inv bins t d v :
  group_ok bins t d v = true → is_nan v = false ∧ v ∈ values bins.
Proof.
  intros Hok. split.
  - destruct v; try done. rewrite group_ok_unobserved in Hok; [done|].
    intros x _. unfold cell_eqb. simpl. by rewrite orb_true_r.
  - destruct (decide (v ∈ values bins)) as [|Hnot]; [done|].
    rewrite group_ok_unobserved in Hok; [done|].
    intros x Hx. unfold cell_eqb. destruct (is_nan x || is_nan v); [done|].
    apply bool_decide_eq_false. by intros ->.
Qed.

Lemma values_cat_elem cats codes v :
  v ∈ values (CatS cats codes) → is_nan v = false →
  ∃ i, v = VInterval i ∧ i ∈ cats.
Proof.
  simpl. intros (code & -> & _)%list_elem_of_fmap. unfold cat_value.
  destruct code as [k|]; [|done]. destruct (cats !! k) as [i|] eqn:Hk; [|done].
  intros _. exists i. split; [done|]. by apply list_elem_of_lookup_2 in Hk.
Qed.

Lemma np_unique_elem s range_hue v :
  np_unique s = Return range_hue → v ∈ range_hue → v ∈ values s.
Proof.
  intros [[_ ->]|[_ ->]]%np_unique_cases; [done|].
  rewrite merge_sort_Permutation. apply elem_of_remove_dups.
Qed.


Lemma km_fits_continuous_empty col split w s bins :
  data w !! col = Some s → pd_cut s split = Return bins →
  np_unique bins = Return [] →
  Continuous.km_fits col split w
  = (Return [],
     mkWorld (delete (col +:+ "_group") (data w)) (fig w) (fitted w) (shown w)).
Proof.
  intros Hs Hcut Huniq. unfold Continuous.km_fits.
  rewrite bind_eq. unfold data_getitem at 1, df_getitem. rewrite Hs.
  rewrite bind_eq. unfold lift at 1. rewrite Hcut.
  rewrite bind_eq. unfold lift at 1. rewrite Huniq.
  rewrite bind_eq. unfold data_getitem at 1, df_getitem. rewrite Hs.
  rewrite bind_eq. unfold lift at 1. rewrite Hcut.
  rewrite bind_eq. unfold data_setitem at 1, df_setitem.
  rewrite bind_eq. cbn [comprehension ret].
  rewrite bind_eq. cbn [comprehension ret].
  rewrite bind_eq. unfold data_drop, df_drop. cbn [data].
  rewrite lookup_insert_eq. cbn [zip zip_with comprehension ret fig fitted shown].
  by rewrite delete_insert_eq.
Qed.


Lemma strata_length key t d label range_hue :
  length (strata key t d label range_hue) = length range_hue.
Proof. unfold strata. apply length_fmap. Qed.







(** The observed bins, in increasing order and once each. *)
Lemma range_hue_sorted bins range_hue :
  np_unique bins = Return range_hue →
  (∀ v, v ∈ range_hue → is_nan v = false) →
  NoDup range_hue ∧ StronglySorted cell_le range_hue
  ∧ (∀ v, v ∈ range_hue ↔ v ∈ values bins ∧ is_nan v = false).
Proof.
  intros Huniq Hnan.
  destruct (np_unique_cases _ _ Huniq) as [[Hall ->]|[Hex Hr]].
  - destruct (values bins) as [|v vs] eqn:Hv.
    + split; [constructor|]. split; [constructor|]. intros v. split.
      * by intros ?%elem_of_nil.
      * by intros [?%elem_of_nil _].
    + specialize (Hnan v ltac:(left)). simpl in Hall.
      by rewrite Hnan in Hall.
  - destruct (np_unique_plain_elem bins range_hue Hex Huniq) as (Hnd & Hel & _ & Hs).
    split; [done|]. split; [done|]. intros v. rewrite Hel. split.
    + intros Hv. split; [done|]. apply Hnan. by apply Hel.
    + by intros [? _].
Qed.








(** ** The subgroups partition the rows *)




(** ** Where a value lands among explicit cut points *)






(** ** Where a value lands among equal-width bins *)


















(** ** The panels of the categorical routine *)

Lemma km_fits_categorical_state col w o w' :
  Categorical.km_fits col w = (o, w') →
  data w' = data w ∧ fig w' = fig w ∧ shown w' = shown w.
Proof.
  pose (I := λ w1, data w1 = data w ∧ fig w1 = fig w ∧ shown w1 = shown w).
  assert (preserves I (Categorical.km_fits col)) as Hkm.
  { unfold Categorical.km_fits.
    apply preserves_bind; [apply preserves_data_getitem|]; intros column.
    apply preserves_bind; [apply preserves_lift|]; intros range_hue.
    apply preserves_bind;
      [apply preserves_comprehension; intros; apply preserves_rows_where_eq|]; intros X.
    apply preserves_bind;
      [apply preserves_comprehension; intros; apply preserves_rows_where_eq|]; intros Y.
    apply preserves_comprehension. intros i [x y].
    apply preserves_bind; [apply preserves_lift|]. intros label w1 o1 w2 Hw1 Hfit.
    rewrite fit_run in Hfit. destruct (fit_ok x y); by inversion Hfit; subst. }
  intros Hrun. by apply (Hkm w o w').
Qed.


Lemma categorical_plot_feature_data idx feature w o w' :
  Categorical.plot_feature idx feature w = (o, w') → data w' = data w.
Proof.
  unfold Categorical.plot_feature.
  apply (preserves_bind (λ w1, data w1 = data w)); [| |done].
  - intros w1 o1 w2 Hw1 Hfits.
    destruct (km_fits_categorical_state _ _ _ _ Hfits) as (Hdata & _). congruence.
  - intros fits. apply preserves_bind; [|intros; apply preserves_ret].
    apply (data_only_plots (λ df, df = data w)).
Qed.





(** ** The curves of a categorical column *)



(** * Further properties *)

(** ** What the routines leave untouched *)

Lemma categorical_data_kept df cols :
  preserves (λ w, data w = df)
    (Categorical.PlotKaplanMeierEstimatesForCategoricalVariables cols).
Proof.
  unfold Categorical.PlotKaplanMeierEstimatesForCategoricalVariables.
  pose (P := λ df' : DataFrame, df' = df).
  apply preserves_bind; [apply (data_only_loc P)|]; intros _.
  apply preserves_bind; [apply (data_only_subplots P)|]; intros _.
  apply preserves_bind; [|intros _].
  { apply preserves_for_enumerate. intros i x w o w' Hw Hrun.
    by rewrite (categorical_plot_feature_data _ _ _ _ _ Hrun). }
  apply preserves_bind; [apply (data_only_set_visible P)|]; intros _.
  apply preserves_bind; [apply (data_only_suptitle P)|]; intros _.
  apply (data_only_show P).
Qed.

(** X1.  The categorical routine never changes the caller's dataset:
    whatever the column list and whether the call returns or raises, the
    dataset afterwards is the dataset before, column for column. *)
Theorem categorical_keeps_dataset (cols : list string) (w : World) :
  data (Categorical.PlotKaplanMeierEstimatesForCategoricalVariables cols w).2
  = data w.
Proof.
  destruct (Categorical.PlotKaplanMeierEstimatesForCategoricalVariables cols w)
    as [o w'] eqn:Hrun.
  by apply (categorical_data_kept (data w) cols w o w').
Qed.

(** ** When the figure is shown *)

Section shown_only.
Context (b : bool).
Let I : World → Prop := λ w, shown w = b.

Lemma shown_only_setitem name s : preserves I (data_setitem name s).
Proof. intros w o w' HI H. by inversion H; subst. Qed.

Lemma shown_only_drop name : preserves I (data_drop name).
Proof.
  intros w o w' HI H. unfold data_drop in H.
  destruct (df_drop _ _); by inversion H; subst.
Qed.

Lemma shown_only_fit x y label : preserves I (KaplanMeierFitter_fit x y label).
Proof.
  intros w o w' HI H. rewrite fit_run in H.
  destruct (fit_ok x y); by inversion H; subst.
Qed.

Lemma shown_only_fits labels l idx :
  preserves I
    (comprehension
       (λ i '(x_i, y_i),
          let* label := lift (py_index labels i) in
          KaplanMeierFitter_fit x_i y_i label) idx l).
Proof.
  apply preserves_comprehension. intros i [x y].
  apply preserves_bind; [apply preserves_lift|]. intros. apply shown_only_fit.
Qed.

Lemma shown_only_update_axes k g : preserves I (update_axes k g).
Proof. intros w o w' HI H. by inversion H; subst. Qed.

Lemma shown_only_kmf_plot kmf title idx : preserves I (kmf_plot kmf title idx).
Proof.
  apply preserves_bind; [apply preserves_axes_position|].
  intros k. apply shown_only_update_axes.
Qed.

Lemma shown_only_set_visible idx v : preserves I (set_visible idx v).
Proof.
  apply preserves_bind; [apply preserves_axes_position|].
  intros k. apply shown_only_update_axes.
Qed.

Lemma shown_only_plot_feature_categorical idx feature :
  preserves I (Categorical.plot_feature idx feature).
Proof.
  unfold Categorical.plot_feature, Categorical.km_fits.
  apply preserves_bind; [|intros fits].
  { apply preserves_bind; [apply preserves_data_getitem|]; intros column.
    apply preserves_bind; [apply preserves_lift|]; intros range_hue.
    apply preserves_bind;
      [apply preserves_comprehension; intros; apply preserves_rows_where_eq|]; intros X.
    apply preserves_bind;
      [apply preserves_comprehension; intros; apply preserves_rows_where_eq|]; intros Y.
    apply shown_only_fits. }
  apply preserves_bind; [|intros; apply preserves_ret].
  apply preserves_comprehension. intros. apply shown_only_kmf_plot.
Qed.

Lemma shown_only_plot_feature_continuous idx feature :
  preserves I (Continuous.plot_feature idx feature).
Proof.
  unfold Continuous.plot_feature, Continuous.km_fits.
  apply preserves_bind; [apply preserves_lift|]; intros split.
  apply preserves_bind; [|intros fits].
  { apply preserves_bind; [apply preserves_data_getitem|]; intros column.
    apply preserves_bind; [apply preserves_lift|]; intros bins.
    apply preserves_bind; [apply preserves_lift|]; intros range_hue.
    apply preserves_bind; [apply preserves_data_getitem|]; intros column'.
    apply preserves_bind; [apply preserves_lift|]; intros bins'.
    apply preserves_bind; [apply shown_only_setitem|]; intros _.
    apply preserves_bind;
      [apply preserves_comprehension; intros; apply preserves_rows_where_eq|]; intros X.
    apply preserves_bind;
      [apply preserves_comprehension; intros; apply preserves_rows_where_eq|]; intros Y.
    apply preserves_bind; [apply shown_only_drop|]; intros _.
    apply shown_only_fits. }
  apply preserves_bind; [|intros; apply preserves_ret].
  apply preserves_comprehension. intros. apply shown_only_kmf_plot.
Qed.

Lemma shows_on_return_show : shows_on_return b plt_show.
Proof. by intros w Hw. Qed.

Lemma shows_on_return_bind {A B} (c : Py A) (k : A → Py B) :
  preserves I c → (∀ a, shows_on_return b (k a)) → shows_on_return b (bind c k).
Proof.
  intros Hc Hk w Hw. rewrite bind_eq.
  destruct (c w) as [[a|e] w1] eqn:Hcw.
  - apply Hk. by apply (Hc w (Return a) w1).
  - simpl. by apply (Hc w (Raise e) w1).
Qed.

Lemma shows_on_return_categorical cols :
  shows_on_return b (Categorical.PlotKaplanMeierEstimatesForCategoricalVariables cols).
Proof.
  unfold Categorical.PlotKaplanMeierEstimatesForCategoricalVariables.
  apply shows_on_return_bind; [|intros _].
  { intros w o w' HI H. by inversion H; subst. }
  apply shows_on_return_bind; [|intros _].
  { intros w o w' HI H. by inversion H; subst. }
  apply shows_on_return_bind; [|intros _].
  { apply preserves_for_enumerate. intros. apply shown_only_plot_feature_categorical. }
  apply shows_on_return_bind; [apply shown_only_set_visible|intros _].
  apply shows_on_return_bind; [|intros _; apply shows_on_return_show].
  intros w o w' HI H. by inversion H; subst.
Qed.

Lemma shows_on_return_continuous cols :
  shows_on_return b (Continuous.PlotKaplanMeierEstimatesForContinuousVariables cols).
Proof.
  unfold Continuous.PlotKaplanMeierEstimatesForContinuousVariables.
  apply shows_on_return_bind; [|intros _].
  { intros w o w' HI H. by inversion H; subst. }
  apply shows_on_return_bind; [|intros _].
  { intros w o w' HI H. by inversion H; subst. }
  apply shows_on_return_bind; [|intros _].
  { apply preserves_for_enumerate. intros. apply shown_only_plot_feature_continuous. }
  apply shows_on_return_bind; [apply shown_only_set_visible|intros _].
  apply shows_on_return_bind; [apply shown_only_set_visible|intros _].
  apply shows_on_return_bind; [|intros _; apply shows_on_return_show].
  intros w o w' HI H. by inversion H; subst.
Qed.
End shown_only.

(** X2.  [plt.show()] is the last step of both routines and is reached
    only on the normal path: after a call that returns the figure has been
    shown, and after a call that raises, at whatever point, nothing has
    been shown that was not shown before. *)
Theorem figure_shown_on_return_only (cols : list string) (w : World) :
  shown (Categorical.PlotKaplanMeierEstimatesForCategoricalVariables cols w).2
  = match (Categorical.PlotKaplanMeierEstimatesForCategoricalVariables cols w).1 with
    | Return _ => true
    | Raise _ => shown w
    end
  ∧ shown (Continuous.PlotKaplanMeierEstimatesForContinuousVariables cols w).2
    = match (Continuous.PlotKaplanMeierEstimatesForContinuousVariables cols w).1 with
      | Return _ => true
      | Raise _ => shown w
      end.
Proof.
  split.
  - by apply (shows_on_return_categorical (shown w) cols w).
  - by apply (shows_on_return_continuous (shown w) cols w).
Qed.

(** ** The capacity of the categorical routine *)

Lemma axes_position_beyond r c k w :
  fig_shape r c w → (r * c ≤ k)%nat →
  axes_position (Z.of_nat k) w = (Raise IndexError, w).
Proof.
  intros (f & Hf & _ & _ & Hlen) Hk. unfold axes_position. rewrite Hf, py_index_nat.
  by rewrite lookup_ge_None_2 by (rewrite length_seq; lia).
Qed.

Lemma plots_beyond_grid r c k feature kmf fits idx w :
  fig_shape r c w → (r * c ≤ k)%nat →
  comprehension (λ _ x, kmf_plot x feature (Z.of_nat k)) idx (kmf :: fits) w
  = (Raise IndexError, w).
Proof.
  intros Hshape Hk. rewrite comprehension_cons, bind_eq. unfold kmf_plot.
  by rewrite bind_eq, (axes_position_beyond r c k w Hshape Hk).
Qed.

Lemma plot_feature_categorical_beyond k feature w fits w' :
  fig_shape 2 3 w → (6 ≤ k)%nat →
  Categorical.km_fits feature w = (Return fits, w') →
  Categorical.plot_feature (Z.of_nat k) feature w
  = (match fits with [] => Return tt | _ :: _ => Raise IndexError end, w').
Proof.
  intros Hshape Hk Hfits. unfold Categorical.plot_feature. rewrite bind_eq, Hfits.
  destruct fits as [|kmf fits]; [done|].
  rewrite bind_eq, (plots_beyond_grid 2 3); [done| |done].
  by apply (fig_only_km_fits_categorical (λ o, ∃ f, o = Some f ∧ _) feature
              w (Return (kmf :: fits)) w').
Qed.

(** X3.  The categorical routine has room for six columns.  When the
    first six or more columns of the list have been processed and
    [km_fits] returns at least one fit for the next column, plotting the
    first of them on [ax.flatten()[idx]] ends the call with [IndexError],
    after the fits of that column have been made; a column for which
    [km_fits] returns no fit, one without rows, is passed over without
    error. *)
Theorem categorical_capacity_is_six (w : World) (cols : list string) :
  ∀ pre f post w1 fits w2,
    all_present (data w) cols → cols = pre ++ f :: post → (6 ≤ length pre)%nat →
    for_enumerate Categorical.plot_feature 0 pre (plt_subplots 2 3 w).2
    = (Return tt, w1) →
    Categorical.km_fits f w1 = (Return fits, w2) →
    (fits ≠ [] →
     Categorical.PlotKaplanMeierEstimatesForCategoricalVariables cols w
     = (Raise IndexError, w2))
    ∧ (fits = [] →
       Categorical.plot_feature (Z.of_nat (length pre)) f w1 = (Return tt, w2)).
Proof.
  intros pre f post w1 fits w2 Hall -> Hlen Hpre Hfits.
  assert (fig_shape 2 3 w1) as Hshape.
  { apply (preserves_for_enumerate (fig_shape 2 3) _
             (fig_shape_plot_feature_categorical 2 3) pre 0 _ _ _
             (fig_shape_subplots 2 3 w) Hpre). }
  pose proof (plot_feature_categorical_beyond _ f w1 fits w2 Hshape Hlen Hfits) as Hstep.
  split.
  - intros Hne. apply (categorical_loop_raise pre f post w w1); [done|done|].
    rewrite Hstep. by destruct fits.
  - by intros ->.
Qed.

Lemma categorical_capacity_is_six_witness :
  let w := world_of heart_frame in
  let pre := categorical_features ++ ["DEATH_EVENT"] in
  let cols := pre ++ ["time"] in
  let w1 := (for_enumerate Categorical.plot_feature 0 pre (plt_subplots 2 3 w).2).2 in
  let fits := strata (IntS [4; 6; 7; 7; 8; 8]%Z) (IntS [4; 6; 7; 7; 8; 8]%Z)
                (IntS [1; 1; 1; 0; 1; 0]%Z) (categorical_label "time")
                [VInt 4; VInt 6; VInt 7; VInt 8] in
  let w2 := (Categorical.km_fits "time" w1).2 in
  (all_present (data w) cols ∧ (6 ≤ length pre)%nat
   ∧ for_enumerate Categorical.plot_feature 0 pre (plt_subplots 2 3 w).2
     = (Return tt, w1)
   ∧ Categorical.km_fits "time" w1 = (Return fits, w2) ∧ fits ≠ [])
  ∧ Categorical.PlotKaplanMeierEstimatesForCategoricalVariables cols w
    = (Raise IndexError, w2).
Proof.
  intros w pre cols w1 fits w2.
  assert (all_present (data w) cols) as H1.
  { intros c Hc. apply heart_frame_columns.
    apply elem_of_app in Hc as [Hc|Hc]; [by apply elem_of_app; right|].
    apply list_elem_of_singleton in Hc as ->. apply elem_of_app. left.
    vm_compute. do 6 right. left. }
  assert (6 ≤ length pre)%nat as H2 by (vm_compute; lia).
  assert (for_enumerate Categorical.plot_feature 0 pre (plt_subplots 2 3 w).2
          = (Return tt, w1)) as H3 by (vm_compute; reflexivity).
  assert (Categorical.km_fits "time" w1 = (Return fits, w2)) as H4
    by (vm_compute; reflexivity).
  assert (fits ≠ []) as H5 by discriminate.
  split; [exact (conj H1 (conj H2 (conj H3 (conj H4 H5))))|].
  exact (proj1 (categorical_capacity_is_six w cols pre "time" [] w1 fits w2
                  H1 eq_refl H2 H3 H4) H5).
Defined.

(** ** The two columns every fit reads *)

Lemma km_fits_categorical_no_time col w s v range_hue :
  data w !! col = Some s → np_unique s = Return (v :: range_hue) →
  data w !! "time" = None →
  Categorical.km_fits col w = (Raise (KeyError ["time"]), w).
Proof.
  intros Hs Huniq Ht. unfold Categorical.km_fits.
  rewrite bind_eq. unfold data_getitem at 1, df_getitem. rewrite Hs.
  rewrite bind_eq. unfold lift at 1. rewrite Huniq.
  rewrite bind_eq, comprehension_cons, bind_eq.
  by rewrite (rows_where_eq_missing _ _ _ _ s).
Qed.

Lemma km_fits_categorical_no_event col w s v range_hue t :
  data w !! col = Some s → np_unique s = Return (v :: range_hue) →
  data w !! "time" = Some t → data w !! "DEATH_EVENT" = None →
  Categorical.km_fits col w = (Raise (KeyError ["DEATH_EVENT"]), w).
Proof.
  intros Hs Huniq Ht Hd. unfold Categorical.km_fits.
  rewrite bind_eq. unfold data_getitem at 1, df_getitem. rewrite Hs.
  rewrite bind_eq. unfold lift at 1. rewrite Huniq.
  rewrite bind_eq, (comprehension_pure _ (λ v, select (eq_mask s v) t));
    [|intros; by apply rows_where_eq_found].
  rewrite bind_eq, comprehension_cons, bind_eq.
  by rewrite (rows_where_eq_missing _ _ _ _ s).
Qed.

Lemma km_fits_categorical_empty col w s :
  data w !! col = Some s → np_unique s = Return [] →
  Categorical.km_fits col w = (Return [], w).
Proof.
  intros Hs Huniq. unfold Categorical.km_fits.
  rewrite bind_eq. unfold data_getitem at 1, df_getitem. rewrite Hs.
  rewrite bind_eq. unfold lift at 1. by rewrite Huniq.
Qed.

Lemma plot_feature_categorical_raise idx feature w e w' :
  Categorical.km_fits feature w = (Raise e, w') →
  Categorical.plot_feature idx feature w = (Raise e, w').
Proof. intros Hfits. unfold Categorical.plot_feature. by rewrite bind_eq, Hfits. Qed.

(** X4.  The projection does not look at [time] and [DEATH_EVENT], which
    are read only when the subgroups of a column are extracted.  On a
    dataset without [time], [km_fits] of the categorical routine ends
    with [KeyError] for [time] on any column that has at least one value,
    and with [KeyError] for [DEATH_EVENT] when only that column is
    missing, the state being the one it started from; a column without
    rows needs neither and yields no fit.  A call whose first column has a
    value therefore fails after the figure has been created. *)
Theorem categorical_needs_time_and_event (w : World) :
  (∀ col s v range_hue,
     data w !! col = Some s → np_unique s = Return (v :: range_hue) →
     data w !! "time" = None →
     Categorical.km_fits col w = (Raise (KeyError ["time"]), w))
  ∧ (∀ col s v range_hue t,
       data w !! col = Some s → np_unique s = Return (v :: range_hue) →
       data w !! "time" = Some t → data w !! "DEATH_EVENT" = None →
       Categorical.km_fits col w = (Raise (KeyError ["DEATH_EVENT"]), w))
  ∧ (∀ col s,
       data w !! col = Some s → np_unique s = Return [] →
       Categorical.km_fits col w = (Return [], w))
  ∧ (∀ f rest s v range_hue,
       all_present (data w) (f :: rest) →
       data w !! f = Some s → np_unique s = Return (v :: range_hue) →
       data w !! "time" = None →
       Categorical.PlotKaplanMeierEstimatesForCategoricalVariables (f :: rest) w
       = (Raise (KeyError ["time"]), (plt_subplots 2 3 w).2)).
Proof.
  split; [|split; [|split]].
  - intros col s v range_hue. apply km_fits_categorical_no_time.
  - intros col s v range_hue t. apply km_fits_categorical_no_event.
  - intros col s. apply km_fits_categorical_empty.
  - intros f rest s v range_hue Hall Hs Huniq Ht.
    apply (categorical_loop_raise [] f rest w (plt_subplots 2 3 w).2); [done|done|].
    apply plot_feature_categorical_raise.
    by apply (km_fits_categorical_no_time f _ s v range_hue).
Qed.

Lemma categorical_needs_time_and_event_witness :
  let w := world_of untimed_frame in
  let s := FloatS [Qc_of 45 1; Qc_of 70 1] in
  (all_present (data w) ["age"] ∧ data w !! "age" = Some s
   ∧ np_unique s = Return [VFloat (Qc_of 45 1); VFloat (Qc_of 70 1)]
   ∧ data w !! "time" = None)
  ∧ Categorical.PlotKaplanMeierEstimatesForCategoricalVariables ["age"] w
    = (Raise (KeyError ["time"]), (plt_subplots 2 3 w).2).
Proof.
  intros w s.
  assert (data w !! "age" = Some s) as H2 by (vm_compute; reflexivity).
  assert (all_present (data w) ["age"]) as H1.
  { intros c Hc. apply list_elem_of_singleton in Hc as ->. by eexists. }
  assert (np_unique s = Return [VFloat (Qc_of 45 1); VFloat (Qc_of 70 1)]) as H3
    by (vm_compute; reflexivity).
  assert (data w !! "time" = None) as H4 by (vm_compute; reflexivity).
  split; [exact (conj H1 (conj H2 (conj H3 H4)))|].
  exact (proj2 (proj2 (proj2 (categorical_needs_time_and_event w)))
           "age" [] s _ _ H1 H2 H3 H4).
Defined.

(** ** The columns the continuous routine removes *)

Lemma group_names_snoc (cols : list string) k x name :
  cols !! k = Some x → name ≠ x +:+ "_group" →
  name ∈ (λ c, c +:+ "_group") <$> take (S k) cols
  ↔ name ∈ (λ c, c +:+ "_group") <$> take k cols.
Proof.
  intros Hx Hne. rewrite (take_S_r _ _ _ Hx), fmap_app, elem_of_app. simpl.
  rewrite list_elem_of_singleton. tauto.
Qed.

Lemma dropped_upto_step (df0 : DataFrame) t d (cols : list string) k x w w' :
  has_schema (data w) t d
  ∧ (∀ name, data w !! name
             = if bool_decide (name ∈ (λ c, c +:+ "_group") <$> take k cols)
               then None else df0 !! name) →
  cols !! k = Some x →
  Continuous.plot_feature (Z.of_nat k) x w = (Return tt, w') →
  has_schema (data w') t d
  ∧ (∀ name, data w' !! name
             = if bool_decide (name ∈ (λ c, c +:+ "_group") <$> take (S k) cols)
               then None else df0 !! name).
Proof.
  intros [Hschema Hdata] Hx Hrun.
  rewrite (plot_feature_continuous_return _ _ _ _ _ _ Hschema Hrun).
  split; [by apply has_schema_delete_group|]. intros name.
  destruct (decide (name = x +:+ "_group")) as [->|Hne].
  - rewrite lookup_delete_eq, bool_decide_eq_true_2; [done|].
    rewrite (take_S_r _ _ _ Hx), fmap_app, elem_of_app. right. by left.
  - rewrite lookup_delete_ne by done. rewrite Hdata.
    by rewrite (bool_decide_ext _ _ (group_names_snoc cols k x name Hx Hne)).
Qed.

(** X5.  On a dataset that holds [time] and [DEATH_EVENT], a call of the
    continuous routine that returns leaves the dataset with exactly its
    original columns minus those named [c ++ "_group"] for a listed column
    [c]: every other column is kept with its contents, and a column of the
    caller that happens to bear such a name is overwritten by the scratch
    column and removed with it. *)
Theorem continuous_drops_group_columns (w : World) (cols : list string)
    (t d : Series) (w' : World) :
  has_schema (data w) t d →
  Continuous.PlotKaplanMeierEstimatesForContinuousVariables cols w = (Return tt, w') →
  ∀ name,
    data w' !! name
    = if bool_decide (name ∈ (λ c, c +:+ "_group") <$> cols) then None
      else data w !! name.
Proof.
  intros Hschema Hrun.
  unfold Continuous.PlotKaplanMeierEstimatesForContinuousVariables in Hrun.
  bind_inv_return Hrun proj w1 Hproj.
  assert (w1 = w) as -> by (unfold data_loc_columns in Hproj; by inversion Hproj).
  bind_inv_return Hrun u w2 Hsub.
  pose (Inv := λ (k : nat) (w0 : World),
          has_schema (data w0) t d
          ∧ ∀ name, data w0 !! name
                    = if bool_decide (name ∈ (λ c, c +:+ "_group") <$> take k cols)
                      then None else data w !! name).
  assert (Inv 0%nat w2) as Hw2.
  { inversion Hsub; subst w2; clear Hsub. unfold Inv. split; [done|].
    by intros name. }
  bind_inv_return Hrun u1 w3 Hloop. destruct u1.
  apply (for_enumerate_indexed Continuous.plot_feature Inv cols
           (λ k x wa wb, dropped_upto_step (data w) t d cols k x wa wb) w2 w3 Hw2)
    in Hloop.
  destruct Hloop as [_ Hdata]. rewrite firstn_all in Hdata.
  pose (P := λ df : DataFrame,
          ∀ name, df !! name
                  = if bool_decide (name ∈ (λ c, c +:+ "_group") <$> cols)
                    then None else data w !! name).
  bind_inv_return Hrun u2 w4 Hhide.
  apply (data_only_set_visible P _ _ _ _ _ Hdata) in Hhide.
  bind_inv_return Hrun u3 w5 Hhide2.
  apply (data_only_set_visible P _ _ _ _ _ Hhide) in Hhide2.
  bind_inv_return Hrun u4 w6 Htitle.
  apply (data_only_suptitle P _ _ _ _ Hhide2) in Htitle.
  by apply (data_only_show P _ _ _ Htitle) in Hrun.
Qed.

Lemma continuous_drops_group_columns_witness :
  let w := world_of grouped_frame in
  let r := Continuous.PlotKaplanMeierEstimatesForContinuousVariables ["age"] w in
  (has_schema (data w) (IntS [4; 6]%Z) (IntS [1; 0]%Z) ∧ r = (Return tt, r.2))
  ∧ data w !! "age_group" = Some (StrS ["young"; "old"])
  ∧ data r.2 !! "age_group" = None
  ∧ data r.2 !! "age" = data w !! "age".
Proof.
  intros w r.
  assert (has_schema (data w) (IntS [4; 6]%Z) (IntS [1; 0]%Z)) as H1
    by (split; vm_compute; reflexivity).
  assert (r = (Return tt, r.2)) as H2 by (vm_compute; reflexivity).
  split; [exact (conj H1 H2)|].
  split; [vm_compute; reflexivity|].
  pose proof (continuous_drops_group_columns w ["age"] _ _ r.2 H1 H2) as Hdata.
  split.
  - exact (Hdata "age_group").
  - exact (Hdata "age").
Defined.

(** ** How many curves a continuous panel holds *)

Lemma from_breaks_length breaks :
  length (from_breaks breaks) = (length breaks - 1)%nat.
Proof.
  unfold from_breaks. rewrite length_zip_with.
  destruct breaks; cbn [tail length]; lia.
Qed.

Lemma np_linspace_length mn mx num : length (np_linspace mn mx num) = num.
Proof. unfold np_linspace. by rewrite length_fmap, length_seq. Qed.

Lemma nbins_to_bins_length xs nbins edges :
  nbins_to_bins xs nbins = Return edges →
  length edges = (Z.to_nat nbins + 1)%nat.
Proof.
  unfold nbins_to_bins. destruct (nbins <? 1)%Z; [done|].
  destruct xs as [|x0 xs]; [done|]. case_bool_decide.
  - intros [= <-]. apply np_linspace_length.
  - pose proof (np_linspace_length (foldr Qc_min x0 xs) (foldr Qc_max x0 xs)
                  (Z.to_nat nbins + 1)) as Hlen.
    destruct (np_linspace _ _ _) as [|b0 bs]; [simpl in Hlen; lia|].
    by intros [= <-].
Qed.

(** The number of bins of a specification. *)
Lemma pd_cut_bins_count s split cats codes :
  pd_cut s split = Return (CatS cats codes) →
  length cats
  = match split with
    | SplitEdges edges => (length edges - 1)%nat
    | SplitCount nbins => Z.to_nat nbins
    end.
Proof.
  intros Hcut.
  destruct (pd_cut_categorical _ _ _ Hcut) as (xs & edges & _ & [= -> ->] & _ & Hsplit).
  unfold format_labels. rewrite from_breaks_length, length_fmap.
  destruct split as [e|n].
  - by destruct Hsplit as [-> _].
  - rewrite (nbins_to_bins_length _ _ _ Hsplit). lia.
Qed.

Lemma observed_bins_bound s split cats codes range_hue :
  pd_cut s split = Return (CatS cats codes) →
  np_unique (CatS cats codes) = Return range_hue →
  (∀ v, v ∈ range_hue → is_nan v = false) →
  (length range_hue ≤ length cats)%nat.
Proof.
  intros Hcut Huniq Hnan.
  destruct (range_hue_sorted _ _ Huniq Hnan) as (Hnd & _ & Hel).
  rewrite <-(length_fmap VInterval cats).
  apply submseteq_length, NoDup_submseteq; [done|].
  intros v Hv. apply Hel in Hv as [Hv Hvn].
  destruct (values_cat_elem _ _ _ Hv Hvn) as (i & -> & Hi).
  by apply list_elem_of_fmap_2.
Qed.

Lemma split_points_three (i : nat) split :
  Continuous.data_split_points !! i = Some split →
  match split with
  | SplitEdges edges => (length edges - 1)%nat
  | SplitCount nbins => Z.to_nat nbins
  end = 3%nat.
Proof.
  do 7 (destruct i as [|i]; [by intros [= <-]|]). done.
Qed.

Lemma few_curves_step t d k x w w' :
  has_schema (data w) t d
  ∧ (k ≤ 7)%nat
  ∧ (∀ i, (i < 9)%nat →
       ∃ cs, panel_curves w i = Some cs ∧ (length cs ≤ 3)%nat
             ∧ ((k ≤ i)%nat → cs = [])) →
  Continuous.plot_feature (Z.of_nat k) x w = (Return tt, w') →
  has_schema (data w') t d
  ∧ (S k ≤ 7)%nat
  ∧ (∀ i, (i < 9)%nat →
       ∃ cs, panel_curves w' i = Some cs ∧ (length cs ≤ 3)%nat
             ∧ ((S k ≤ i)%nat → cs = [])).
Proof.
  intros (Hschema & _ & Hpanels) Hrun.
  pose proof (plot_feature_continuous_position _ _ _ _ Hrun) as Hk.
  assert (panel_curves w k = Some []) as Hempty.
  { destruct (Hpanels k ltac:(lia)) as (cs & Hcs & _ & Hnil). by rewrite Hcs, Hnil. }
  destruct (plot_feature_continuous_step k x w t d w' [] Hschema Hempty Hrun)
    as (sp & s & bins & range_hue & Hsp & Hs & Hcut & Huniq & Hok & Hpanel & Hother & _).
  split; [|split; [lia|]].
  { rewrite (plot_feature_continuous_return _ _ _ _ _ _ Hschema Hrun).
    by apply has_schema_delete_group. }
  intros i Hi. destruct (decide (i = k)) as [->|Hne].
  - eexists. split; [exact Hpanel|]. split; [|lia].
    rewrite app_nil_l, strata_length.
    destruct (pd_cut_categorical _ _ _ Hcut) as (xs & edges & _ & Hbins & _).
    rewrite Hbins in Hcut, Huniq.
    rewrite <-(split_points_three k sp Hsp), <-(pd_cut_bins_count _ _ _ _ Hcut).
    apply (observed_bins_bound s sp _ _ _ Hcut Huniq).
    intros v Hv. rewrite forallb_forall in Hok.
    by destruct (group_ok_observed_inv _ _ _ _ (Hok v (proj1 (list_elem_of_In _ _) Hv))).
  - rewrite (Hother i Hne). destruct (Hpanels i Hi) as (cs & Hcs & Hlen & Hnil).
    exists cs. split; [done|]. split; [done|]. intros Hle. apply Hnil. lia.
Qed.

(** X6.  Each of the seven bin specifications of the continuous routine
    cuts its column into three bins, so after a call that returns every
    panel of the grid holds at most three curves, whichever the columns;
    the panels from the position after the last column on hold none, and
    in particular the two panels that the routine hides are always
    empty. *)
Theorem continuous_panels_hold_at_most_three (w : World) (cols : list string)
    (t d : Series) (w' : World) :
  has_schema (data w) t d →
  Continuous.PlotKaplanMeierEstimatesForContinuousVariables cols w = (Return tt, w') →
  (∀ i, (i < 9)%nat →
     ∃ cs, panel_curves w' i = Some cs ∧ (length cs ≤ 3)%nat
           ∧ ((length cols ≤ i)%nat → cs = []))
  ∧ panel_curves w' 7 = Some [] ∧ panel_curves w' 8 = Some [].
Proof.
  intros Hschema Hrun.
  unfold Continuous.PlotKaplanMeierEstimatesForContinuousVariables in Hrun.
  bind_inv_return Hrun proj w1 Hproj.
  assert (w1 = w) as -> by (unfold data_loc_columns in Hproj; by inversion Hproj).
  bind_inv_return Hrun u w2 Hsub.
  pose (Inv := λ (k : nat) (w0 : World),
          has_schema (data w0) t d
          ∧ (k ≤ 7)%nat
          ∧ (∀ i, (i < 9)%nat →
               ∃ cs, panel_curves w0 i = Some cs ∧ (length cs ≤ 3)%nat
                     ∧ ((k ≤ i)%nat → cs = []))).
  assert (Inv 0%nat w2) as Hw2.
  { inversion Hsub; subst w2; clear Hsub. unfold Inv. split; [done|].
    split; [lia|]. intros i Hi. exists []. unfold panel_curves. cbn [fig axes].
    split; [|split; [simpl; lia|done]].
    do 9 (destruct i as [|i]; [done|]). lia. }
  bind_inv_return Hrun u1 w3 Hloop. destruct u1.
  apply (for_enumerate_indexed Continuous.plot_feature Inv cols
           (λ k x wa wb Hinv _, few_curves_step t d k x wa wb Hinv) w2 w3 Hw2)
    in Hloop.
  destruct Hloop as (_ & Hlen & Hpanels).
  assert (∀ i, panel_curves w' i = panel_curves w3 i) as Hsame.
  { intros i. bind_inv_return Hrun u2 w4 Hhide.
    apply (panel_curves_set_visible _ _ _ _ _ i) in Hhide.
    bind_inv_return Hrun u3 w5 Hhide2.
    apply (panel_curves_set_visible _ _ _ _ _ i) in Hhide2.
    bind_inv_return Hrun u4 w6 Htitle.
    assert (panel_curves w6 i = panel_curves w5 i) as Ht
      by (by inversion Htitle; subst; unfold panel_curves; simpl; destruct (fig w5)).
    assert (panel_curves w' i = panel_curves w6 i) as Hs
      by (by inversion Hrun; subst).
    congruence. }
  split; [|split].
  - intros i Hi. rewrite Hsame. by apply Hpanels.
  - rewrite Hsame. destruct (Hpanels 7%nat ltac:(lia)) as (cs & Hcs & _ & Hnil).
    by rewrite Hcs, Hnil.
  - rewrite Hsame. destruct (Hpanels 8%nat ltac:(lia)) as (cs & Hcs & _ & Hnil).
    rewrite Hcs, Hnil; [done|lia].
Qed.

Lemma continuous_panels_hold_at_most_three_witness :
  let w := world_of heart_frame in
  let r := Continuous.PlotKaplanMeierEstimatesForContinuousVariables
             continuous_features w in
  (has_schema (data w) (IntS [4; 6; 7; 7; 8; 8]%Z) (IntS [1; 1; 1; 0; 1; 0]%Z)
   ∧ r = (Return tt, r.2))
  ∧ (∀ i, (i < 9)%nat →
       ∃ cs, panel_curves r.2 i = Some cs ∧ (length cs ≤ 3)%nat
             ∧ ((length continuous_features ≤ i)%nat → cs = []))
  ∧ panel_curves r.2 7 = Some [] ∧ panel_curves r.2 8 = Some [].
Proof.
  intros w r.
  assert (has_schema (data w) (IntS [4; 6; 7; 7; 8; 8]%Z) (IntS [1; 1; 1; 0; 1; 0]%Z))
    as H1 by (split; vm_compute; reflexivity).
  assert (r = (Return tt, r.2)) as H2 by (vm_compute; reflexivity).
  split; [exact (conj H1 H2)|].
  exact (continuous_panels_hold_at_most_three w continuous_features _ _ r.2 H1 H2).
Defined.

(** ** When the categorical routine succeeds *)

Lemma for_enumerate_progress {A} (body : Z → A → Py unit) (Inv : nat → World → Prop)
    (l : list A) :
  (∀ k x w, Inv k w → l !! k = Some x →
     ∃ w', body (Z.of_nat k) x w = (Return tt, w') ∧ Inv (S k) w') →
  ∀ w, Inv 0%nat w →
  ∃ w', for_enumerate body 0 l w = (Return tt, w') ∧ Inv (length l) w'.
Proof.
  intros Hstep.
  assert (∀ l2 l1 w, l = l1 ++ l2 → Inv (length l1) w →
            ∃ w', for_enumerate body (Z.of_nat (length l1)) l2 w = (Return tt, w')
                  ∧ Inv (length l) w') as Hgen.
  { induction l2 as [|x l2 IH]; intros l1 w Hl Hinv.
    - exists w. split; [done|]. by rewrite Hl, app_nil_r.
    - destruct (Hstep (length l1) x w Hinv) as (w1 & Hx & Hinv1).
      { rewrite Hl. by rewrite lookup_app_r, Nat.sub_diag. }
      destruct (IH (l1 ++ [x]) w1) as (w' & Hrun & Hinv').
      + by rewrite <-app_assoc.
      + rewrite length_app. simpl. by rewrite Nat.add_1_r.
      + exists w'. split; [|done]. cbn [for_enumerate]. rewrite bind_eq, Hx.
        rewrite length_app in Hrun. simpl in Hrun.
        by replace (Z.of_nat (length l1) + 1)%Z with (Z.of_nat (length l1 + 1)) by lia. }
  intros w Hinv. by apply (Hgen l [] w).
Qed.

Lemma panel_exists r c k w :
  fig_shape r c w → (k < r * c)%nat → ∃ cs, panel_curves w k = Some cs.
Proof.
  intros (f & Hf & _ & _ & Hlen) Hk. unfold panel_curves. rewrite Hf.
  destruct (lookup_lt_is_Some_2 (axes f) k ltac:(lia)) as [a Ha].
  exists (ax_curves a). by rewrite Ha.
Qed.

Lemma plot_feature_categorical_returns k x w s t d :
  data w !! x = Some s → has_schema (data w) t d →
  existsb is_nan (values s) = false →
  is_numeric t = true → is_numeric d = true →
  series_len t = series_len s → series_len d = series_len s →
  fig_shape 2 3 w → (k < 6)%nat →
  ∃ w', Categorical.plot_feature (Z.of_nat k) x w = (Return tt, w').
Proof.
  intros Hs [Ht Hd] Hnan Hnt Hnd Hlt Hld Hshape Hk.
  destruct (np_unique_plain s Hnan) as (range_hue & Huniq & _).
  destruct (np_unique_plain_elem s range_hue Hnan Huniq) as (_ & Hel & _).
  destruct (km_fits_categorical_run x w s range_hue t d Hs Huniq Ht Hd)
    as [[Hrun _]|[_ Hbad]].
  2:{ exfalso. apply not_true_iff_false in Hbad. apply Hbad.
      apply forallb_forall. intros v Hv%list_elem_of_In.
      apply group_ok_observed; try done. by apply Hel. }
  cbv zeta in Hrun.
  set (fits := strata s t d (categorical_label x) range_hue) in *.
  assert (fig_shape 2 3 (add_fitted w fits)) as Hshape2 by done.
  destruct (panel_exists 2 3 k _ Hshape2 ltac:(lia)) as [cs Hcs].
  destruct (plots_run x k fits 0 _ cs Hcs) as (us & w3 & Hplots & _).
  exists w3. unfold Categorical.plot_feature.
  by rewrite bind_eq, Hrun, bind_eq, Hplots.
Qed.

(** X7.  Sufficient conditions for the categorical routine to succeed.
    On a dataset whose columns all have the same number of rows, with
    numeric [time] and [DEATH_EVENT] columns, a call with at most six
    listed columns, each present and without missing values, returns
    normally: no column can make a fit or a plot fail, whatever its type
    and however many distinct values it has. *)
Theorem categorical_returns_on_clean_data (w : World) (cols : list string)
    (n : nat) (t d : Series) :
  wf_frame (data w) n → all_present (data w) cols →
  has_schema (data w) t d → is_numeric t = true → is_numeric d = true →
  (∀ c s, c ∈ cols → data w !! c = Some s → existsb is_nan (values s) = false) →
  (length cols ≤ 6)%nat →
  ∃ w', Categorical.PlotKaplanMeierEstimatesForCategoricalVariables cols w
        = (Return tt, w').
Proof.
  intros Hwf Hall Hschema Hnt Hnd Hnan Hlen.
  rewrite categorical_after_projection by done.
  pose (Inv := λ (k : nat) (w0 : World), data w0 = data w ∧ fig_shape 2 3 w0).
  destruct (for_enumerate_progress Categorical.plot_feature Inv cols)
    with (w := (plt_subplots 2 3 w).2) as (w3 & Hloop & _ & Hshape).
  { intros k x w0 [Hdata Hshape] Hx.
    destruct (Hall x (list_elem_of_lookup_2 _ _ _ Hx)) as [s Hs].
    destruct Hschema as [Ht Hd].
    assert (data w0 !! x = Some s) as Hs0 by (by rewrite Hdata).
    assert (has_schema (data w0) t d) as Hschema0 by (by rewrite Hdata).
    assert (existsb is_nan (values s) = false) as Hclean
      by (apply (Hnan x s); [by apply list_elem_of_lookup_2 in Hx|done]).
    assert (series_len t = series_len s) as Hlt
      by (by rewrite (Hwf "time" t Ht), (Hwf x s Hs)).
    assert (series_len d = series_len s) as Hld
      by (by rewrite (Hwf "DEATH_EVENT" d Hd), (Hwf x s Hs)).
    assert (k < 6)%nat as Hk by (apply lookup_lt_Some in Hx; lia).
    destruct (plot_feature_categorical_returns k x w0 s t d
                Hs0 Hschema0 Hclean Hnt Hnd Hlt Hld Hshape Hk) as [w' Hrun].
    exists w'. split; [done|]. split.
    - by rewrite (categorical_plot_feature_data _ _ _ _ _ Hrun).
    - exact (fig_shape_plot_feature_categorical 2 3 (Z.of_nat k) x w0 (Return tt) w'
               Hshape Hrun). }
  { split; [done|]. apply fig_shape_subplots. }
  destruct (set_visible_from_end 2 3 1 w3 Hshape ltac:(lia)) as (f & Hf & Hvis).
  change (- Z.of_nat 1)%Z with (-1)%Z in Hvis.
  eexists. rewrite bind_eq.
  change (plt_subplots 2 3 w) with (Return tt, (plt_subplots 2 3 w).2).
  cbv beta iota. rewrite bind_eq, Hloop, bind_eq, Hvis. reflexivity.
Qed.

Lemma categorical_returns_on_clean_data_witness :
  let w := world_of heart_frame in
  let t := IntS [4; 6; 7; 7; 8; 8]%Z in
  let d := IntS [1; 1; 1; 0; 1; 0]%Z in
  (wf_frame (data w) 6 ∧ all_present (data w) categorical_features
   ∧ has_schema (data w) t d ∧ is_numeric t = true ∧ is_numeric d = true
   ∧ (∀ c s, c ∈ categorical_features → data w !! c = Some s →
        existsb is_nan (values s) = false)
   ∧ (length categorical_features ≤ 6)%nat)
  ∧ ∃ w', Categorical.PlotKaplanMeierEstimatesForCategoricalVariables
            categorical_features w = (Return tt, w').
Proof.
  intros w t d.
  assert (∀ c s, data w !! c = Some s →
            series_len s = 6%nat ∧ existsb is_nan (values s) = false) as Hcols.
  { assert (map_Forall (λ (_ : string) s,
                         series_len s = 6%nat ∧ existsb is_nan (values s) = false)
              heart_frame) as Hframe
      by (apply (bool_decide_unpack _); by vm_compute).
    intros c s Hs. exact (Hframe c s Hs). }
  assert (wf_frame (data w) 6) as H1 by (intros c s Hs; apply (Hcols c s Hs)).
  assert (all_present (data w) categorical_features) as H2.
  { intros c Hc. apply heart_frame_columns. apply elem_of_app. right.
    by apply elem_of_app; left. }
  assert (has_schema (data w) t d) as H3 by (split; vm_compute; reflexivity).
  assert (is_numeric t = true) as H4 by reflexivity.
  assert (is_numeric d = true) as H5 by reflexivity.
  assert (∀ c s, c ∈ categorical_features → data w !! c = Some s →
            existsb is_nan (values s) = false) as H6
    by (intros c s _ Hs; apply (Hcols c s Hs)).
  assert (length categorical_features ≤ 6)%nat as H7 by (vm_compute; lia).
  split; [exact (conj H1 (conj H2 (conj H3 (conj H4 (conj H5 (conj H6 H7))))))|].
  exact (categorical_returns_on_clean_data w categorical_features 6 t d
           H1 H2 H3 H4 H5 H6 H7).
Defined.

(** ** Every fit is drawn *)

Lemma panel_curves_panels w j : panel_curves w j = panels w !! j.
Proof.
  unfold panel_curves, panels. destruct (fig w) as [f|]; [|done].
  by rewrite list_lookup_fmap.
Qed.

Lemma panels_ext w w' :
  (∀ j, panel_curves w' j = panel_curves w j) → panels w' = panels w.
Proof.
  intros Hsame. apply list_eq. intros j. by rewrite <-!panel_curves_panels.
Qed.

Lemma mjoin_all_nil {A} (ls : list (list A)) :
  (∀ j l, ls !! j = Some l → l = []) → mjoin ls = [].
Proof.
  induction ls as [|l ls IH]; intros Hnil; [done|]. simpl.
  rewrite (Hnil 0%nat l eq_refl), IH; [done|].
  intros j l' Hj. by apply (Hnil (S j)).
Qed.

Lemma mjoin_append_at {A} (ls ls' : list (list A)) k cs new :
  ls !! k = Some cs → ls' !! k = Some (cs ++ new) →
  (∀ j, j ≠ k → ls' !! j = ls !! j) →
  (∀ j l, (k < j)%nat → ls !! j = Some l → l = []) →
  mjoin ls' = mjoin ls ++ new.
Proof.
  intros Hk Hk' Hother Hrest.
  assert (ls' = <[k := cs ++ new]> ls) as ->.
  { apply list_eq. intros j. destruct (decide (j = k)) as [->|Hne].
    - rewrite Hk'. symmetry. apply list_lookup_insert_eq.
      by apply lookup_lt_Some in Hk.
    - by rewrite list_lookup_insert_ne, Hother. }
  rewrite insert_take_drop by (by apply lookup_lt_Some in Hk).
  rewrite <-(take_drop_middle ls k cs Hk) at 3.
  assert (mjoin (drop (S k) ls) = []) as Htail.
  { apply mjoin_all_nil. intros j l Hj. rewrite lookup_drop in Hj.
    apply (Hrest (S k + j)%nat); [lia|done]. }
  rewrite !join_app. simpl. rewrite Htail, !app_nil_r. by rewrite app_assoc.
Qed.

Lemma fits_fitted labels l : ∀ idx w fits w',
  comprehension
    (λ i '(x_i, y_i),
       let* label := lift (py_index labels i) in
       KaplanMeierFitter_fit x_i y_i label) idx l w = (Return fits, w') →
  fitted w' = fitted w ++ fits ∧ fig w' = fig w.
Proof.
  induction l as [|[x y] l IH]; intros idx w fits w' Hrun.
  - inversion Hrun; subst. by rewrite app_nil_r.
  - rewrite comprehension_cons in Hrun.
    bind_inv_return Hrun kmf w1 Hfit. bind_inv_return Hrun rest w2 Hrest.
    inversion Hrun; subst; clear Hrun.
    bind_inv_return Hfit label w0 Hlabel.
    assert (w0 = w) as -> by (unfold lift in Hlabel; by inversion Hlabel).
    rewrite fit_run in Hfit. destruct (fit_ok x y); [|done].
    inversion Hfit; subst; clear Hfit.
    destruct (IH _ _ _ _ Hrest) as [-> ->]. simpl. by rewrite <-app_assoc.
Qed.

Lemma km_fits_categorical_fitted feature w fits w' :
  Categorical.km_fits feature w = (Return fits, w') →
  fitted w' = fitted w ++ fits ∧ fig w' = fig w.
Proof.
  unfold Categorical.km_fits. intros Hrun.
  pose (I := λ w0 : World, w0 = w).
  bind_inv_return Hrun column w1 H1.
  apply (preserves_data_getitem I _ _ _ _ eq_refl) in H1.
  bind_inv_return Hrun range_hue w2 H2.
  apply (preserves_lift I _ _ _ _ H1) in H2.
  bind_inv_return Hrun X w3 H3.
  apply (preserves_comprehension I _
           (λ _ x, preserves_rows_where_eq I feature x "time") _ _ _ _ _ H2) in H3.
  bind_inv_return Hrun Y w4 H4.
  apply (preserves_comprehension I _
           (λ _ y, preserves_rows_where_eq I feature y "DEATH_EVENT") _ _ _ _ _ H3) in H4.
  unfold I in H4. subst w4. by apply fits_fitted in Hrun.
Qed.

Lemma km_fits_continuous_fitted feature split w fits w' :
  Continuous.km_fits feature split w = (Return fits, w') →
  fitted w' = fitted w ++ fits ∧ fig w' = fig w.
Proof.
  unfold Continuous.km_fits. intros Hrun.
  pose (I := λ w0 : World, fitted w0 = fitted w ∧ fig w0 = fig w).
  assert (I w) as H0 by done.
  bind_inv_return Hrun column w1 H1.
  apply (preserves_data_getitem I _ _ _ _ H0) in H1.
  bind_inv_return Hrun bins w2 H2.
  apply (preserves_lift I _ _ _ _ H1) in H2.
  bind_inv_return Hrun range_hue w3 H3.
  apply (preserves_lift I _ _ _ _ H2) in H3.
  bind_inv_return Hrun column' w4 H4.
  apply (preserves_data_getitem I _ _ _ _ H3) in H4.
  bind_inv_return Hrun bins' w5 H5.
  apply (preserves_lift I _ _ _ _ H4) in H5.
  bind_inv_return Hrun u w6 H6.
  assert (I w6) as H6' by (by inversion H6; subst).
  bind_inv_return Hrun X w7 H7.
  apply (preserves_comprehension I _
           (λ _ x, preserves_rows_where_eq I (feature +:+ "_group") x "time")
           _ _ _ _ _ H6') in H7.
  bind_inv_return Hrun Y w8 H8.
  apply (preserves_comprehension I _
           (λ _ y, preserves_rows_where_eq I (feature +:+ "_group") y "DEATH_EVENT")
           _ _ _ _ _ H7) in H8.
  bind_inv_return Hrun u' w9 H9.
  assert (I w9) as [Hf9 Hg9].
  { unfold data_drop in H9. destruct (df_drop _ _); by inversion H9; subst. }
  apply fits_fitted in Hrun as [-> ->]. by rewrite Hf9, Hg9.
Qed.

Lemma plots_drawn k feature fits idx w us w' :
  comprehension (λ _ x, kmf_plot x feature (Z.of_nat k)) idx fits w = (Return us, w') →
  (∀ j l, (k < j)%nat → panels w !! j = Some l → l = []) →
  drawn w' = drawn w ++ fits ∧ fitted w' = fitted w
  ∧ (∀ j, j ≠ k → panels w' !! j = panels w !! j).
Proof.
  intros Hrun Hrest. destruct fits as [|kmf fits].
  { inversion Hrun; subst. by rewrite app_nil_r. }
  destruct (panel_curves w k) as [cs|] eqn:Hk.
  - destruct (plots_run feature k (kmf :: fits) idx w cs Hk)
      as (us' & w'' & Hrun' & _ & Hfitted & _ & Hk' & Hother).
    rewrite Hrun' in Hrun. inversion Hrun; subst us' w''; clear Hrun.
    rewrite panel_curves_panels in Hk, Hk'.
    split; [|split; [done|]].
    + apply (mjoin_append_at _ _ k cs); try done.
      intros j Hj. rewrite <-!panel_curves_panels. by apply Hother.
    + intros j Hj. rewrite <-!panel_curves_panels. by apply Hother.
  - exfalso. rewrite comprehension_cons, bind_eq in Hrun.
    unfold kmf_plot in Hrun. rewrite bind_eq in Hrun.
    unfold panel_curves in Hk. unfold axes_position in Hrun.
    destruct (fig w) as [f|]; [|done].
    rewrite py_index_nat in Hrun.
    destruct (axes f !! k) as [a|] eqn:Ha; [done|].
    by rewrite lookup_ge_None_2 in Hrun
      by (rewrite length_seq; by apply lookup_ge_None_1).
Qed.

Lemma plot_step_drawn (km : Py (list KMFit)) feature k base w w' :
  (∀ w0 fits w1, km w0 = (Return fits, w1) →
     fitted w1 = fitted w0 ++ fits ∧ fig w1 = fig w0) →
  fitted w = base ++ drawn w
  ∧ (∀ j l, (k ≤ j)%nat → panels w !! j = Some l → l = []) →
  (let* fits := km in
   let* _ := comprehension (λ _ x, kmf_plot x feature (Z.of_nat k)) 0 fits in
   ret tt) w = (Return tt, w') →
  fitted w' = base ++ drawn w'
  ∧ (∀ j l, (S k ≤ j)%nat → panels w' !! j = Some l → l = []).
Proof.
  intros Hkm [Hfitted Hrest] Hrun.
  bind_inv_return Hrun fits w1 Hfits. destruct (Hkm _ _ _ Hfits) as [Hf1 Hg1].
  assert (panels w1 = panels w) as Hp1 by (unfold panels; by rewrite Hg1).
  bind_inv_return Hrun us w2 Hplots. inversion Hrun; subst w2; clear Hrun.
  destruct (plots_drawn _ _ _ _ _ _ _ Hplots) as (Hdrawn & Hf2 & Hother).
  { intros j l Hj. rewrite Hp1. apply Hrest. lia. }
  split.
  - rewrite Hf2, Hf1, Hfitted, Hdrawn. unfold drawn. rewrite Hp1.
    by rewrite app_assoc.
  - intros j l Hj. rewrite Hother by lia. rewrite Hp1. apply Hrest. lia.
Qed.

Lemma set_visible_drawn idx b w o w' :
  set_visible idx b w = (o, w') → panels w' = panels w ∧ fitted w' = fitted w.
Proof.
  intros Hrun. split.
  - apply panels_ext. intros j.
    by apply (panel_curves_set_visible _ _ _ _ _ j) in Hrun.
  - unfold set_visible in Hrun.
    apply bind_inv in Hrun as [(k & w0 & Hpos & Hrun)|(e & Hpos & _)].
    + apply (preserves_axes_position (λ w1, w1 = w) _ _ _ _ eq_refl) in Hpos as ->.
      by inversion Hrun.
    + by apply (preserves_axes_position (λ w1, w1 = w) _ _ _ _ eq_refl) in Hpos as ->.
Qed.

Lemma title_show_drawn title w w' :
  (let* _ := fig_suptitle title in plt_show) w = (Return tt, w') →
  panels w' = panels w ∧ fitted w' = fitted w.
Proof.
  intros Hrun. bind_inv_return Hrun u w1 Htitle.
  inversion Htitle; subst w1; clear Htitle. inversion Hrun; subst w'; clear Hrun.
  unfold panels. simpl. by destruct (fig w).
Qed.

(** X8.  Every fit is drawn, once: when either routine returns, the
    fits made during the call are exactly the curves on the panels of the
    figure, taken panel after panel; no estimator is fitted and left out,
    and none is drawn twice. *)
Theorem fitted_curves_are_drawn (w : World) (cols : list string) :
  (∀ w', Categorical.PlotKaplanMeierEstimatesForCategoricalVariables cols w
         = (Return tt, w') →
         fitted w' = fitted w ++ drawn w')
  ∧ (∀ w', Continuous.PlotKaplanMeierEstimatesForContinuousVariables cols w
           = (Return tt, w') →
           fitted w' = fitted w ++ drawn w').
Proof.
  pose (Inv := λ (k : nat) (w0 : World),
          fitted w0 = fitted w ++ drawn w0
          ∧ (∀ j l, (k ≤ j)%nat → panels w0 !! j = Some l → l = [])).
  split; intros w' Hrun.
  - unfold Categorical.PlotKaplanMeierEstimatesForCategoricalVariables in Hrun.
    bind_inv_return Hrun proj w1 Hproj.
    assert (w1 = w) as -> by (unfold data_loc_columns in Hproj; by inversion Hproj).
    bind_inv_return Hrun u w2 Hsub.
    assert (Inv 0%nat w2) as Hw2.
    { inversion Hsub; subst w2; clear Hsub. unfold Inv, drawn, panels. simpl.
      split; [by rewrite app_nil_r|]. intros j l _.
      do 6 (destruct j as [|j]; [by intros [= <-]|]). done. }
    bind_inv_return Hrun u1 w3 Hloop. destruct u1.
    apply (for_enumerate_indexed Categorical.plot_feature Inv cols) with (w := w2)
      in Hloop; [|clear; intros k x wa wb Hinv _ Hstep|done].
    2:{ apply (plot_step_drawn (Categorical.km_fits x) x k (fitted w) wa wb);
          [apply km_fits_categorical_fitted|done|done]. }
    destruct Hloop as [Hfitted _].
    bind_inv_return Hrun u2 w4 Hhide.
    destruct (set_visible_drawn _ _ _ _ _ Hhide) as [Hp4 Hf4].
    destruct (title_show_drawn _ _ _ Hrun) as [Hp Hf].
    unfold drawn. by rewrite Hf, Hf4, Hp, Hp4.
  - unfold Continuous.PlotKaplanMeierEstimatesForContinuousVariables in Hrun.
    bind_inv_return Hrun proj w1 Hproj.
    assert (w1 = w) as -> by (unfold data_loc_columns in Hproj; by inversion Hproj).
    bind_inv_return Hrun u w2 Hsub.
    assert (Inv 0%nat w2) as Hw2.
    { inversion Hsub; subst w2; clear Hsub. unfold Inv, drawn, panels. simpl.
      split; [by rewrite app_nil_r|]. intros j l _.
      do 9 (destruct j as [|j]; [by intros [= <-]|]). done. }
    bind_inv_return Hrun u1 w3 Hloop. destruct u1.
    apply (for_enumerate_indexed Continuous.plot_feature Inv cols) with (w := w2)
      in Hloop; [|clear; intros k x wa wb Hinv _ Hstep|done].
    2:{ unfold Continuous.plot_feature in Hstep.
        bind_inv_return Hstep sp w0 Hsplit.
        assert (w0 = wa) as -> by (unfold lift in Hsplit; by inversion Hsplit).
        apply (plot_step_drawn (Continuous.km_fits x sp) x k (fitted w) wa wb);
          [apply km_fits_continuous_fitted|done|done]. }
    destruct Hloop as [Hfitted _].
    bind_inv_return Hrun u2 w4 Hhide.
    destruct (set_visible_drawn _ _ _ _ _ Hhide) as [Hp4 Hf4].
    bind_inv_return Hrun u3 w5 Hhide2.
    destruct (set_visible_drawn _ _ _ _ _ Hhide2) as [Hp5 Hf5].
    destruct (title_show_drawn _ _ _ Hrun) as [Hp Hf].
    unfold drawn. by rewrite Hf, Hf5, Hf4, Hp, Hp5, Hp4.
Qed.

Lemma fitted_curves_are_drawn_witness :
  let w := world_of heart_frame in
  let r := Categorical.PlotKaplanMeierEstimatesForCategoricalVariables
             categorical_features w in
  r = (Return tt, r.2)
  ∧ fitted r.2 = fitted w ++ drawn r.2
  ∧ length (drawn r.2) = 10%nat.
Proof.
  intros w r.
  assert (r = (Return tt, r.2)) as H1 by (vm_compute; reflexivity).
  split; [exact H1|]. split.
  - exact (proj1 (fitted_curves_are_drawn w categorical_features) r.2 H1).
  - vm_compute. reflexivity.
Defined.

(** ** A dataset without rows *)

Lemma empty_numeric_values s :
  is_numeric s = true → series_len s = 0%nat → numeric_values s = Some [].
Proof.
  destruct s as [xs|xs|xs|cats codes]; try done; unfold series_len; simpl;
    rewrite length_fmap; by destruct xs.
Qed.

Lemma pd_cut_count_empty s nbins :
  is_numeric s = true → series_len s = 0%nat →
  pd_cut s (SplitCount nbins) = Raise ValueError.
Proof.
  intros Hnum Hlen. unfold pd_cut. rewrite (empty_numeric_values s Hnum Hlen).
  unfold nbins_to_bins. by destruct (nbins <? 1)%Z.
Qed.

Lemma pd_cut_edges_empty s edges bins :
  is_numeric s = true → series_len s = 0%nat →
  pd_cut s (SplitEdges edges) = Return bins → np_unique bins = Return [].
Proof.
  intros Hnum Hlen Hcut.
  destruct (pd_cut_categorical _ _ _ Hcut) as (xs & edges' & Hxs & -> & _).
  rewrite (empty_numeric_values s Hnum Hlen) in Hxs. by injection Hxs as <-.
Qed.

Lemma pd_cut_fixed_edges_empty (i : nat) s edges :
  is_numeric s = true → series_len s = 0%nat →
  Continuous.data_split_points !! i = Some (SplitEdges edges) →
  ∃ bins, pd_cut s (SplitEdges edges) = Return bins.
Proof.
  intros Hnum Hlen Hi. unfold pd_cut. rewrite (empty_numeric_values s Hnum Hlen).
  do 7 (destruct i as [|i];
        [injection Hi as <- || discriminate Hi; by eexists; vm_compute|]).
  done.
Qed.

(** X9.  A column without rows.  [km_fits] of the categorical routine
    returns no fit for it.  In the continuous routine the outcome depends
    on the bin specification the column is paired with: with a bin count
    the binning fails with [ValueError], since there is no range to
    divide, and the dataset is untouched; with one of the two lists of
    cut points there is no fit and no error, and the scratch column is
    removed. *)
Theorem column_without_rows (w : World) (col : string) (s : Series) :
  data w !! col = Some s → is_numeric s = true → series_len s = 0%nat →
  Categorical.km_fits col w = (Return [], w)
  ∧ (∀ nbins,
       Continuous.km_fits col (SplitCount nbins) w = (Raise ValueError, w))
  ∧ (∀ (i : nat) edges,
       Continuous.data_split_points !! i = Some (SplitEdges edges) →
       Continuous.km_fits col (SplitEdges edges) w
       = (Return [],
          mkWorld (delete (col +:+ "_group") (data w)) (fig w) (fitted w) (shown w))).
Proof.
  intros Hs Hnum Hlen. split; [|split].
  - apply (km_fits_categorical_empty col w s Hs). unfold np_unique.
    unfold series_len in Hlen. by destruct (values s).
  - intros nbins. unfold Continuous.km_fits.
    rewrite bind_eq. unfold data_getitem at 1, df_getitem. rewrite Hs.
    rewrite bind_eq. unfold lift at 1.
    by rewrite (pd_cut_count_empty s nbins Hnum Hlen).
  - intros i edges Hi.
    destruct (pd_cut_fixed_edges_empty i s edges Hnum Hlen Hi) as [bins Hcut].
    apply (km_fits_continuous_empty col _ w s bins Hs Hcut).
    by apply (pd_cut_edges_empty s edges).
Qed.

Lemma column_without_rows_witness :
  let w := world_of empty_frame in
  (data w !! "age" = Some (FloatS []) ∧ is_numeric (FloatS []) = true
   ∧ series_len (FloatS []) = 0%nat)
  ∧ Categorical.km_fits "age" w = (Return [], w)
  ∧ Continuous.km_fits "age" (SplitCount 3) w = (Raise ValueError, w).
Proof.
  intros w.
  assert (data w !! "age" = Some (FloatS [])) as H1 by (vm_compute; reflexivity).
  assert (is_numeric (FloatS []) = true) as H2 by reflexivity.
  assert (series_len (FloatS []) = 0%nat) as H3 by reflexivity.
  split; [exact (conj H1 (conj H2 H3))|].
  destruct (column_without_rows w "age" (FloatS []) H1 H2 H3) as (Hcat & Hcount & _).
  exact (conj Hcat (Hcount 3%Z)).
Defined.

(** ** Titles and visibility of the panels *)

Lemma kmf_plot_figure kmf title k w w' :
  kmf_plot kmf title (Z.of_nat k) w = (Return tt, w') →
  ∃ f, fig w = Some f ∧ (k < length (axes f))%nat
    ∧ fig w'
      = Some (mkFigure (nrows f) (ncols f)
                (alter (λ a, mkAxes (Some title) (ax_curves a ++ [kmf]) (ax_visible a))
                   k (axes f)) (suptitle f)).
Proof.
  unfold kmf_plot. intros Hrun. bind_inv_return Hrun k' w1 Hpos.
  unfold axes_position in Hpos. destruct (fig w) as [f|] eqn:Hf; [|done].
  rewrite py_index_nat in Hpos.
  destruct (seq 0 (length (axes f)) !! k) as [k''|] eqn:Hseq; [|done].
  apply lookup_seq in Hseq as [-> Hk]. inversion Hpos; subst k' w1; clear Hpos.
  exists f. split; [done|]. split; [done|].
  unfold update_axes in Hrun. inversion Hrun; subst w'; clear Hrun. simpl.
  by rewrite Hf.
Qed.

Lemma plots_layout cols k x fits : cols !! k = Some x → ∀ idx w us w',
  comprehension (λ _ kmf, kmf_plot kmf x (Z.of_nat k)) idx fits w = (Return us, w') →
  layout_upto cols (S k) w → layout_upto cols (S k) w'.
Proof.
  intros Hx. induction fits as [|kmf fits IH]; intros idx w us w' Hrun Hw.
  - by inversion Hrun; subst.
  - rewrite comprehension_cons in Hrun.
    bind_inv_return Hrun u w1 Hplot. destruct u.
    bind_inv_return Hrun rest w2 Hrest.
    inversion Hrun; subst w2; clear Hrun.
    apply (IH _ _ _ _ Hrest). clear IH Hrest.
    destruct Hw as (f & Hf & Hpanels).
    destruct (kmf_plot_figure _ _ _ _ _ Hplot) as (f' & Hf' & Hk & Hfig).
    assert (f' = f) as -> by congruence.
    eexists. split; [exact Hfig|]. cbn [axes]. intros i a Hi.
    destruct (decide (i = k)) as [->|Hne].
    + rewrite list_lookup_alter_eq in Hi.
      destruct (axes f !! k) as [a0|] eqn:Ha0; [|done].
      injection Hi as <-. destruct (Hpanels k a0 Ha0) as (_ & Hvis & _).
      split; [|split; [done|simpl; lia]].
      unfold titled. simpl. by destruct (ax_curves a0).
    + rewrite list_lookup_alter_ne in Hi by done. by apply Hpanels.
Qed.

Lemma layout_upto_weaken cols k w :
  layout_upto cols k w → layout_upto cols (S k) w.
Proof.
  intros (f & Hf & Hpanels). exists f. split; [done|]. intros i a Hi.
  destruct (Hpanels i a Hi) as (Ht & Hv & Hnil).
  split; [done|]. split; [done|]. intros Hle. apply Hnil. lia.
Qed.

Lemma layout_fig cols k w w' :
  fig w' = fig w → layout_upto cols k w → layout_upto cols k w'.
Proof. intros Hfig (f & Hf & Hpanels). exists f. by rewrite Hfig. Qed.

Lemma layout_step_categorical cols k x w w' :
  layout_upto cols k w → cols !! k = Some x →
  Categorical.plot_feature (Z.of_nat k) x w = (Return tt, w') →
  layout_upto cols (S k) w'.
Proof.
  intros Hw Hx Hrun. unfold Categorical.plot_feature in Hrun.
  bind_inv_return Hrun fits w1 Hfits. bind_inv_return Hrun us w2 Hplots.
  inversion Hrun; subst w2; clear Hrun.
  apply (plots_layout cols k x fits Hx _ _ _ _ Hplots).
  apply layout_upto_weaken, (layout_fig cols k w); [|done].
  by destruct (km_fits_categorical_fitted _ _ _ _ Hfits).
Qed.

Lemma layout_step_continuous cols k x w w' :
  layout_upto cols k w → cols !! k = Some x →
  Continuous.plot_feature (Z.of_nat k) x w = (Return tt, w') →
  layout_upto cols (S k) w'.
Proof.
  intros Hw Hx Hrun. unfold Continuous.plot_feature in Hrun.
  bind_inv_return Hrun sp w0 Hsplit.
  assert (w0 = w) as -> by (unfold lift in Hsplit; by inversion Hsplit).
  bind_inv_return Hrun fits w1 Hfits. bind_inv_return Hrun us w2 Hplots.
  inversion Hrun; subst w2; clear Hrun.
  apply (plots_layout cols k x fits Hx _ _ _ _ Hplots).
  apply layout_upto_weaken, (layout_fig cols k w); [|done].
  by destruct (km_fits_continuous_fitted _ _ _ _ _ Hfits).
Qed.

Lemma layout_subplots cols r c w : layout_upto cols 0 (plt_subplots r c w).2.
Proof.
  eexists. split; [done|]. cbn [axes]. intros i a Hi.
  apply lookup_replicate in Hi as [-> _]. by repeat split.
Qed.

(** X10.  The layout of the figure after a call that returns.  A panel
    carries a title exactly when it holds a curve, and the title is then
    the name of the column at the panel's position in the list; the
    figure's title is the fixed headline of the routine; every panel is
    visible except the last one of the categorical grid and the last two
    of the continuous grid. *)
Theorem panels_titled_by_column (w : World) (cols : list string) :
  (∀ w', Categorical.PlotKaplanMeierEstimatesForCategoricalVariables cols w
         = (Return tt, w') →
     ∃ f, fig w' = Some f
       ∧ suptitle f = Some "Kaplan Meier Estimates for Categorical Variables "
       ∧ ∀ i a, axes f !! i = Some a →
           titled cols i a ∧ ax_visible a = bool_decide (i ≠ 5%nat))
  ∧ (∀ w', Continuous.PlotKaplanMeierEstimatesForContinuousVariables cols w
           = (Return tt, w') →
       ∃ f, fig w' = Some f
         ∧ suptitle f = Some "Kaplan Meier Estimates for Continuous Variables "
         ∧ ∀ i a, axes f !! i = Some a →
             titled cols i a ∧ ax_visible a = bool_decide (i < 7)%nat).
Proof.
  split; intros w' Hrun.
  - unfold Categorical.PlotKaplanMeierEstimatesForCategoricalVariables in Hrun.
    bind_inv_return Hrun proj w1 Hproj.
    assert (w1 = w) as -> by (unfold data_loc_columns in Hproj; by inversion Hproj).
    bind_inv_return Hrun u w2 Hsub.
    assert (w2 = (plt_subplots 2 3 w).2) as -> by (by rewrite Hsub).
    bind_inv_return Hrun u1 w3 Hloop. destruct u1.
    pose proof (preserves_for_enumerate (fig_shape 2 3) _
                  (fig_shape_plot_feature_categorical 2 3) cols 0 _ _ _
                  (fig_shape_subplots 2 3 w) Hloop) as Hshape.
    apply (for_enumerate_indexed Categorical.plot_feature (layout_upto cols) cols
             (layout_step_categorical cols) _ _ (layout_subplots cols 2 3 w)) in Hloop.
    destruct Hloop as (f & Hf & Hpanels).
    destruct (set_visible_from_end 2 3 1 w3 Hshape ltac:(lia)) as (f' & Hf' & Hvis).
    assert (f' = f) as -> by congruence.
    destruct Hshape as (f' & Hf'' & Hr & Hc & Hlen).
    assert (f' = f) as -> by congruence.
    bind_inv_return Hrun u2 w4 Hhide. change (- Z.of_nat 1)%Z with (-1)%Z in Hvis.
    rewrite Hvis in Hhide. inversion Hhide; subst w4; clear Hhide Hvis.
    bind_inv_return Hrun u3 w5 Htitle. inversion Htitle; subst w5; clear Htitle.
    inversion Hrun; subst w'; clear Hrun. simpl.
    eexists. split; [done|]. split; [done|]. cbn [axes]. intros i a Hi.
    destruct (decide (i = 5%nat)) as [->|Hne].
    + rewrite list_lookup_alter_eq in Hi.
      destruct (axes f !! 5%nat) as [a0|] eqn:Ha0; [|done]. injection Hi as <-.
      by destruct (Hpanels 5%nat a0 Ha0) as (Ht & _).
    + rewrite list_lookup_alter_ne in Hi by done.
      destruct (Hpanels i a Hi) as (Ht & Hv & _). split; [done|].
      by rewrite Hv, bool_decide_eq_true_2.
  - unfold Continuous.PlotKaplanMeierEstimatesForContinuousVariables in Hrun.
    bind_inv_return Hrun proj w1 Hproj.
    assert (w1 = w) as -> by (unfold data_loc_columns in Hproj; by inversion Hproj).
    bind_inv_return Hrun u w2 Hsub.
    assert (w2 = (plt_subplots 3 3 w).2) as -> by (by rewrite Hsub).
    bind_inv_return Hrun u1 w3 Hloop. destruct u1.
    pose proof (preserves_for_enumerate (fig_shape 3 3) _
                  (fig_shape_plot_feature_continuous 3 3) cols 0 _ _ _
                  (fig_shape_subplots 3 3 w) Hloop) as Hshape.
    apply (for_enumerate_indexed Continuous.plot_feature (layout_upto cols) cols
             (layout_step_continuous cols) _ _ (layout_subplots cols 3 3 w)) in Hloop.
    destruct Hloop as (f & Hf & Hpanels).
    destruct (set_visible_from_end 3 3 1 w3 Hshape ltac:(lia)) as (f' & Hf' & Hvis).
    assert (f' = f) as -> by congruence.
    destruct Hshape as (f' & Hf'' & Hr & Hc & Hlen).
    assert (f' = f) as -> by congruence.
    bind_inv_return Hrun u2 w4 Hhide. change (- Z.of_nat 1)%Z with (-1)%Z in Hvis.
    rewrite Hvis in Hhide. inversion Hhide; subst w4; clear Hhide Hvis.
    match type of Hrun with bind _ _ ?w4 = _ =>
      assert (fig_shape 3 3 w4) as Hshape4
    end.
    { eexists; split; [done|]. simpl. by rewrite length_alter. }
    destruct (set_visible_from_end 3 3 2 _ Hshape4 ltac:(lia)) as (f4 & Hf4 & Hvis).
    simpl in Hf4. inversion Hf4; subst f4; clear Hf4.
    bind_inv_return Hrun u3 w5 Hhide2. change (- Z.of_nat 2)%Z with (-2)%Z in Hvis.
    rewrite Hvis in Hhide2. inversion Hhide2; subst w5; clear Hhide2 Hvis.
    bind_inv_return Hrun u4 w6 Htitle. inversion Htitle; subst w6; clear Htitle.
    inversion Hrun; subst w'; clear Hrun. simpl.
    eexists. split; [done|]. split; [done|]. cbn [axes]. intros i a Hi.
    change (3 * 3 - 2)%nat with 7%nat in Hi. change (3 * 3 - 1)%nat with 8%nat in Hi.
    destruct (decide (i = 7%nat)) as [->|Hne7].
    + rewrite list_lookup_alter_eq, list_lookup_alter_ne in Hi by done.
      destruct (axes f !! 7%nat) as [a0|] eqn:Ha0; [|done]. injection Hi as <-.
      by destruct (Hpanels 7%nat a0 Ha0) as (Ht & _).
    + rewrite list_lookup_alter_ne in Hi by done.
      destruct (decide (i = 8%nat)) as [->|Hne8].
      * rewrite list_lookup_alter_eq in Hi.
        destruct (axes f !! 8%nat) as [a0|] eqn:Ha0; [|done]. injection Hi as <-.
        by destruct (Hpanels 8%nat a0 Ha0) as (Ht & _).
      * rewrite list_lookup_alter_ne in Hi by done.
        destruct (Hpanels i a Hi) as (Ht & Hv & _). split; [done|].
        rewrite Hv. symmetry. apply bool_decide_eq_true_2.
        apply lookup_lt_Some in Hi. lia.
Qed.

Lemma panels_titled_by_column_witness :
  let w := world_of heart_frame in
  let r := Categorical.PlotKaplanMeierEstimatesForCategoricalVariables
             categorical_features w in
  r = (Return tt, r.2)
  ∧ ∃ f, fig r.2 = Some f
      ∧ suptitle f = Some "Kaplan Meier Estimates for Categorical Variables "
      ∧ ∀ i a, axes f !! i = Some a →
          titled categorical_features i a ∧ ax_visible a = bool_decide (i ≠ 5%nat).
Proof.
  intros w r.
  assert (r = (Return tt, r.2)) as H1 by (vm_compute; reflexivity).
  split; [exact H1|].
  exact (proj1 (panels_titled_by_column w categorical_features) r.2 H1).
Defined.
